(** * Ray-Tracing-Renderer: the intersection and shading core of RayTracing.cpp

    The C++ source computes on IEEE-754 binary32 values ([float]).  The
    embedding is written once over an interface of scalar operations
    ([Scalar]) and is read at two instances:

    - [binary32]: the arithmetic the program really executes, given by the
      Standard Library's executable specification of IEEE-754
      ([SpecFloat], precision 24, exponent bound 128, round to nearest
      even);
    - [exact]: the same formulas over the real numbers, used to state what
      holds when rounding is ignored.

    Reading of the C++ arithmetic: every operation on [float] operands is
    one correctly rounded binary32 operation (no wider intermediate
    precision, no fused multiply-add); an [int] operand of a [float]
    operation is converted to [float]; a [float] compared with a [double]
    literal is promoted, which is exact and keeps the order, so the
    comparisons with [0.0] and [1.0] are made on the binary32 values and
    only the two comparisons with [1e-8] go through binary64.  [int depth] is a [Z]: the only arithmetic on it is
    [depth + 1] under [depth < 3]. *)

From Stdlib Require Import ZArith Bool List Lia.
From Stdlib Require Import Floats.SpecFloat.
From Stdlib Require Import Reals Lra.
From Stdlib Require Import String Ascii.
From Stdlib Require Import Decimal DecimalString DecimalPos DecimalZ.
Import ListNotations.

Set Implicit Arguments.

(** ** Scalar arithmetic *)

Declare Scope scalar_scope.
Delimit Scope scalar_scope with fl.

(** The operations the source applies to [float] values.  [lt_1e8] and
    [gt_1e8] are the two comparisons against the [double] literal [1e-8]
    (lines 24 and 48): C++ promotes the [float] operand to [double] there.
    The source has no [<=] on floats: [fleb] serves to state properties. *)
Class Scalar (F : Type) : Type := {
  fadd : F -> F -> F;
  fsub : F -> F -> F;
  fmul : F -> F -> F;
  fdiv : F -> F -> F;
  fneg : F -> F;
  fsqrt : F -> F;
  fabs : F -> F;
  fltb : F -> F -> bool;
  fleb : F -> F -> bool;
  ofZ : Z -> F;
  FLT_MAX : F;
  lt_1e8 : F -> bool;
  gt_1e8 : F -> bool
}.

Infix "+" := fadd : scalar_scope.
Infix "-" := fsub : scalar_scope.
Infix "*" := fmul : scalar_scope.
Infix "/" := fdiv : scalar_scope.
Notation "- x" := (fneg x) : scalar_scope.
Infix "<?" := fltb : scalar_scope.
Infix "<=?" := fleb : scalar_scope.
Notation "x >? y" := (fltb y x) (only parsing) : scalar_scope.

(** What the nearest-hit argument needs of [<] and [<=].  Comparisons with
    a NaN are all false, so totality is stated for two values that are both
    below a common bound. *)
Class ScalarOrder (F : Type) {SF : Scalar F} : Prop := {
  fltb_irrefl : forall x : F, (x <? x)%fl = false;
  fltb_fleb : forall x y : F, (x <? y)%fl = true -> (x <=? y)%fl = true;
  fltb_fleb_trans : forall x y z : F,
    (x <? y)%fl = true -> (y <=? z)%fl = true -> (x <? z)%fl = true;
  fleb_fltb_trans : forall x y z : F,
    (x <=? y)%fl = true -> (y <? z)%fl = true -> (x <? z)%fl = true;
  fltb_total : forall x y b : F,
    (x <? b)%fl = true -> (y <? b)%fl = true ->
    (x <? y)%fl = false -> (y <=? x)%fl = true
}.

Arguments ScalarOrder F {SF}.

(** What [normalize] needs of the two comparisons with [1e-8]. *)
Class ScalarThreshold (F : Type) {SF : Scalar F} : Prop := {
  gt_1e8_abs : forall x : F, gt_1e8 x = true -> lt_1e8 (fabs x) = false;
  lt_1e8_gt : forall x : F, lt_1e8 x = true -> gt_1e8 x = false
}.

Arguments ScalarThreshold F {SF}.

(** *** IEEE-754 binary32 *)

Module B32.

Definition prec : Z := 24.
Definition emax : Z := 128.

Definition add := SFadd prec emax.
Definition sub := SFsub prec emax.
Definition mul := SFmul prec emax.
Definition div := SFdiv prec emax.
Definition sqrt := SFsqrt prec emax.

(** An integer constant or an [int] converted to [float]. *)
Definition of_Z (n : Z) : spec_float := binary_normalize prec emax n 0 false.

(** [float] to [double] promotion: exact, the value is renormalised to 53
    bits. *)
Definition to_double (x : spec_float) : spec_float :=
  match x with
  | S754_finite s m e => binary_normalize 53 1024 (cond_Zopp s (Zpos m)) e s
  | _ => x
  end.

(** The [double] literal [1e-8]: the binary64 value nearest to 10^-8. *)
Definition dbl_1e8 : spec_float :=
  Eval vm_compute in
    SFdiv 53 1024 (binary_normalize 53 1024 1 0 false)
                  (binary_normalize 53 1024 100000000 0 false).

(** Zeros of either sign, and equality of two values as numbers: they are
    identical or both are zeros. *)
Definition is_zero (x : spec_float) : bool :=
  match x with S754_zero _ => true | _ => false end.

Definition same_number (x y : spec_float) : Prop :=
  x = y \/ (is_zero x = true /\ is_zero y = true).

(** [double] to [float] conversion, rounding to nearest even. *)
Definition of_double (x : spec_float) : spec_float :=
  match x with
  | S754_finite s m e => binary_normalize prec emax (cond_Zopp s (Zpos m)) e s
  | _ => x
  end.

(** A reading of the C library's [pow] at an integer exponent, used to
    evaluate [trace] on examples: repeated multiplication in [double],
    converted to [float].  The properties of [trace] are proved for every
    function in its place. *)
Definition powi (x : spec_float) (n : Z) : spec_float :=
  of_double
    (Z.iter n (SFmul 53 1024 (to_double x)) (binary_normalize 53 1024 1 0 false)).

End B32.

#[export] Instance binary32 : Scalar spec_float := {
  fadd := B32.add;
  fsub := B32.sub;
  fmul := B32.mul;
  fdiv := B32.div;
  fneg := SFopp;
  fsqrt := B32.sqrt;
  fabs := SFabs;
  fltb := SFltb;
  fleb := SFleb;
  ofZ := B32.of_Z;
  FLT_MAX := SFmax_float B32.prec B32.emax;
  lt_1e8 := fun x => SFltb (B32.to_double x) B32.dbl_1e8;
  gt_1e8 := fun x => SFltb B32.dbl_1e8 (B32.to_double x)
}.

(** *** Exact real arithmetic *)

Definition Rltb (x y : R) : bool := if Rlt_dec x y then true else false.
Definition Rleb (x y : R) : bool := if Rle_dec x y then true else false.

#[export] Instance exact : Scalar R := {
  fadd := Rplus;
  fsub := Rminus;
  fmul := Rmult;
  fdiv := Rdiv;
  fneg := Ropp;
  fsqrt := sqrt;
  fabs := Rabs;
  fltb := Rltb;
  fleb := Rleb;
  ofZ := IZR;
  FLT_MAX := ((2 ^ 24 - 1) * 2 ^ 104)%R;
  lt_1e8 := fun x => Rltb x (1 / 100000000)%R;
  gt_1e8 := fun x => Rltb (1 / 100000000)%R x
}.

(** ** The program *)

Section Program.

Context {F : Type} {SF : Scalar F}.
Open Scope scalar_scope.

(** A decimal [float] literal [n / 10^k]: both are exact as scalars, and a
    correctly rounded division yields the nearest value, which is what the
    compiler stores for the literal. *)
Definition lit (n d : Z) : F := ofZ n / ofZ d.

(** [struct Vector3], lines 10-35. *)
Record Vector3 : Type := mkVector3 { vx : F; vy : F; vz : F }.

(** [operator+] and binary [operator-], lines 14-19. *)
Definition vadd (a v : Vector3) : Vector3 :=
  mkVector3 (vx a + vx v) (vy a + vy v) (vz a + vz v).

Definition vsub (a v : Vector3) : Vector3 :=
  mkVector3 (vx a - vx v) (vy a - vy v) (vz a - vz v).

(** [operator*(float)], lines 20-22. *)
Definition vscale (a : Vector3) (s : F) : Vector3 :=
  mkVector3 (vx a * s) (vy a * s) (vz a * s).

(** [operator/(float)], lines 23-26. *)
Definition vdiv (a : Vector3) (s : F) : Vector3 :=
  if lt_1e8 (fabs s) then a
  else mkVector3 (vx a / s) (vy a / s) (vz a / s).

(** Unary [operator-], lines 27-29. *)
Definition vneg (a : Vector3) : Vector3 :=
  mkVector3 (- vx a) (- vy a) (- vz a).

Definition dot (a b : Vector3) : F :=
  vx a * vx b + vy a * vy b + vz a * vz b.

Definition length (v : Vector3) : F := fsqrt (dot v v).

Definition normalize (v : Vector3) : Vector3 :=
  let len := length v in
  if gt_1e8 len then vdiv v len else v.

Definition cross (a b : Vector3) : Vector3 :=
  mkVector3 (vy a * vz b - vz a * vy b)
            (vz a * vx b - vx a * vz b)
            (vx a * vy b - vy a * vx b).

Definition reflect (incident normal : Vector3) : Vector3 :=
  vsub incident (vscale normal (ofZ 2 * dot incident normal)).

(** [struct Ray], lines 64-71. *)
Record Ray : Type := mkRay { origin : Vector3; direction : Vector3 }.

Definition pointAt (r : Ray) (t : F) : Vector3 :=
  vadd (origin r) (vscale (direction r) t).

(** [struct Triangle], lines 73-80. *)
Record Triangle : Type := mkTriangle {
  v0 : Vector3; v1 : Vector3; v2 : Vector3;
  color : Vector3;
  doubleSided : bool
}.

(** [struct HitRecord], lines 82-89.  The pointer [triangle] is either
    null or the address of an element of the scene vector, which is never
    modified while it is read: it is modelled by the triangle it points to. *)
Record HitRecord : Type := mkHitRecord {
  position : Vector3;
  normal : Vector3;
  distance : F;
  triangle : option Triangle
}.

(** The default constructor: [Vector3()] is the zero vector. *)
Definition newHitRecord : HitRecord :=
  mkHitRecord (mkVector3 (ofZ 0) (ofZ 0) (ofZ 0))
              (mkVector3 (ofZ 0) (ofZ 0) (ofZ 0))
              FLT_MAX None.

Definition EPSILON : F := lit 1 100000.

(** The local [a] of [intersectTriangle], lines 95-98. *)
Definition determinant (tri : Triangle) (ray : Ray) : F :=
  let edge1 := vsub (v1 tri) (v0 tri) in
  let edge2 := vsub (v2 tri) (v0 tri) in
  let h := cross (direction ray) edge2 in
  dot edge1 h.

(** The condition of the early return at lines 101-102. *)
Definition cullTest (tri : Triangle) (a : F) : bool :=
  negb (doubleSided tri) && (a <? EPSILON) && (a >? - EPSILON).

(** The denominator of [f = 1.0f / a] (line 104) when control reaches that
    line, [None] when the function has returned before it. *)
Definition divisionDenominator (tri : Triangle) (ray : Ray) : option F :=
  let a := determinant tri ray in
  if cullTest tri a then None else Some a.

(** [intersectTriangle], lines 94-133.  The record passed by reference is
    threaded: the result pairs the returned [bool] with the record as the
    call leaves it. *)
Definition intersectTriangle (tri : Triangle) (ray : Ray) (hit : HitRecord)
  : bool * HitRecord :=
  let edge1 := vsub (v1 tri) (v0 tri) in
  let edge2 := vsub (v2 tri) (v0 tri) in
  let h := cross (direction ray) edge2 in
  let a := determinant tri ray in
  if cullTest tri a then (false, hit)
  else
    let f := ofZ 1 / a in
    let s := vsub (origin ray) (v0 tri) in
    let u := f * dot s h in
    if (u <? ofZ 0) || (u >? ofZ 1) then (false, hit)
    else
      let q := cross s edge1 in
      let v := f * dot (direction ray) q in
      if (v <? ofZ 0) || (u + v >? ofZ 1) then (false, hit)
      else
        let t := f * dot edge2 q in
        if (t >? EPSILON) && (t <? distance hit) then
          let n := normalize (cross edge1 edge2) in
          let n' :=
            if doubleSided tri && (dot n (direction ray) >? ofZ 0)
            then vneg n else n in
          (true, mkHitRecord (pointAt ray t) n' t (Some tri))
        else (false, hit).

(** The candidate distance [t] of line 117, whatever the tests decide. *)
Definition hitDistance (tri : Triangle) (ray : Ray) : F :=
  let edge1 := vsub (v1 tri) (v0 tri) in
  let edge2 := vsub (v2 tri) (v0 tri) in
  let f := ofZ 1 / determinant tri ray in
  let s := vsub (origin ray) (v0 tri) in
  f * dot edge2 (cross s edge1).

(** The normal stored at lines 123-126. *)
Definition hitNormal (tri : Triangle) (ray : Ray) : Vector3 :=
  let edge1 := vsub (v1 tri) (v0 tri) in
  let edge2 := vsub (v2 tri) (v0 tri) in
  let n := normalize (cross edge1 edge2) in
  if doubleSided tri && (dot n (direction ray) >? ofZ 0) then vneg n else n.

(** [std::max(a, b)] is [(a < b) ? b : a]. *)
Definition fmax (a b : F) : F := if a <? b then b else a.

(** The nearest-hit loop of [trace], lines 138-146: every triangle is tested
    against a fresh record. *)
Definition closestStep (ray : Ray) (closestHit : HitRecord) (tri : Triangle)
  : HitRecord :=
  let '(found, hit) := intersectTriangle tri ray newHitRecord in
  if found && (distance hit <? distance closestHit) then hit
  else closestHit.

Definition closestHitScan (ray : Ray) (triangles : list Triangle)
  : HitRecord :=
  fold_left (closestStep ray) triangles newHitRecord.

(** [tri] registers a hit of [ray], recorded as [h]: the test of line 141
    succeeds on a fresh record. *)
Definition accepts (ray : Ray) (tri : Triangle) (h : HitRecord) : Prop :=
  intersectTriangle tri ray newHitRecord = (true, h).

(** The invariant of the loop of lines 139-146 once the triangles [seen]
    have been tested: [closestHit] is still the fresh record and none of
    them was hit, or it is the record of one of them and no hit among them
    is nearer. *)
Definition nearestAmong (ray : Ray) (seen : list Triangle)
  (closestHit : HitRecord) : Prop :=
  (closestHit = newHitRecord
   /\ forall tri h, In tri seen -> ~ accepts ray tri h)
  \/ ((exists tri, In tri seen /\ accepts ray tri closestHit)
      /\ forall tri h, In tri seen -> accepts ray tri h ->
                      (distance closestHit <=? distance h) = true).

Definition lightPos : Vector3 := mkVector3 (ofZ 2) (ofZ 5) (ofZ 1).

(** The shadow ray of lines 172-174 and the loop of lines 177-185, which
    stops at the first occluder. *)
Definition shadowRayOf (closestHit : HitRecord) : Ray :=
  mkRay (vadd (position closestHit) (vscale (normal closestHit) EPSILON))
        (normalize (vsub lightPos (position closestHit))).

Definition occludes (closestHit : HitRecord) (tri : Triangle) : bool :=
  let '(found, shadowHit) :=
    intersectTriangle tri (shadowRayOf closestHit) newHitRecord in
  found && ((distance shadowHit >? ofZ 0)
            && (distance shadowHit
                  <? length (vsub lightPos (position closestHit)))).

Definition inShadowScan (closestHit : HitRecord) (triangles : list Triangle)
  : bool :=
  existsb (occludes closestHit) triangles.

(** The reflected ray of lines 190-192. *)
Definition reflectRayOf (ray : Ray) (closestHit : HitRecord) : Ray :=
  mkRay (vadd (position closestHit) (vscale (normal closestHit) EPSILON))
        (reflect (direction ray) (normal closestHit)).

Definition black : Vector3 := mkVector3 (ofZ 0) (ofZ 0) (ofZ 0).
Definition background : Vector3 := mkVector3 (lit 2 10) (lit 7 10) (lit 8 10).

(** [ambient], lines 153-154. *)
Definition ambientOf (materialColor : Vector3) : Vector3 :=
  vscale materialColor (lit 3 10).

(** [diffuse], lines 158 and 163-164. *)
Definition diffuseOf (closestHit : HitRecord) (materialColor : Vector3)
  : Vector3 :=
  let lightDir := normalize (vsub lightPos (position closestHit)) in
  let diff := fmax (ofZ 0) (dot (normal closestHit) lightDir) in
  vscale materialColor diff.

(** [pow] of the C library (line 168): its argument is promoted to
    [double] and its result converted back to [float].  It is a parameter
    of the model. *)
Variable powf : F -> Z -> F.

(** [specular], lines 158-160 and 167-169. *)
Definition specularOf (ray : Ray) (closestHit : HitRecord) : Vector3 :=
  let lightDir := normalize (vsub lightPos (position closestHit)) in
  let viewDir := normalize (vsub (origin ray) (position closestHit)) in
  let reflectDir := reflect (vneg lightDir) (normal closestHit) in
  let specularStrength := lit 1 2 in
  let spec := powf (fmax (ofZ 0) (dot viewDir reflectDir)) 32 in
  vscale (vscale (mkVector3 (ofZ 1) (ofZ 1) (ofZ 1)) spec) specularStrength.

(** [reflection], lines 188-194; [rec] is the recursive call of [trace] at
    [depth + 1]. *)
Definition reflectionOf (rec : Ray -> Vector3) (ray : Ray) (depth : Z)
  (closestHit : HitRecord) (materialColor : Vector3) : Vector3 :=
  if (depth <? 3)%Z && (vx materialColor >? lit 7 10)
  then vscale (rec (reflectRayOf ray closestHit)) (lit 1 2)
  else black.

(** Lines 151-202: the colour of a ray whose nearest hit is [closestHit],
    on triangle [tri]. *)
Definition shade (rec : Ray -> Vector3) (ray : Ray)
  (triangles : list Triangle) (depth : Z) (closestHit : HitRecord)
  (tri : Triangle) : Vector3 :=
  let materialColor := color tri in
  let ambient := ambientOf materialColor in
  let diffuse := diffuseOf closestHit materialColor in
  let specular := specularOf ray closestHit in
  let inShadow := inShadowScan closestHit triangles in
  let reflection := reflectionOf rec ray depth closestHit materialColor in
  let result :=
    if inShadow then ambient else vadd (vadd ambient diffuse) specular in
  vadd result reflection.

(** [trace], lines 135-203.  The recursion is at [depth + 1] and is entered
    only when [depth < 3]; [fuel] counts the bounces still allowed. *)
Fixpoint traceFrom (fuel : nat) (ray : Ray) (triangles : list Triangle)
  (depth : Z) : Vector3 :=
  if (depth >? 3)%Z then black
  else
    let closestHit := closestHitScan ray triangles in
    match triangle closestHit with
    | None => background
    | Some tri =>
      shade (fun r =>
               match fuel with
               | O => black
               | S fuel' => traceFrom fuel' r triangles (depth + 1)
               end)
            ray triangles depth closestHit tri
    end.

Definition trace (ray : Ray) (triangles : list Triangle) (depth : Z)
  : Vector3 :=
  traceFrom (Z.to_nat (3 - depth)) ray triangles depth.

End Program.

Arguments Vector3 F : clear implicits.
Arguments Ray F : clear implicits.
Arguments Triangle F : clear implicits.
Arguments HitRecord F : clear implicits.

(** ** Concrete scenes in binary32 *)

Module Scenes.

(** Vectors with integer coordinates, and with coordinates [x/d]. *)
Definition v3 (x y z : Z) : Vector3 spec_float :=
  mkVector3 (B32.of_Z x) (B32.of_Z y) (B32.of_Z z).
Definition q3 (x y z d : Z) : Vector3 spec_float :=
  mkVector3 (lit x d) (lit y d) (lit z d).

Definition red : Vector3 spec_float := v3 1 0 0.
Definition green : Vector3 spec_float := v3 0 1 0.

(** The unit right triangle of the plane [z = 0], wound so that
    [cross(v1 - v0, v2 - v0)] is [(0, 0, 1)]. *)
Definition unitTri (ds : bool) : Triangle spec_float :=
  mkTriangle (v3 0 0 0) (v3 1 0 0) (v3 0 1 0) red ds.

(** A ray travelling along [+z] from below: it meets [unitTri] from behind. *)
Definition rayFromBehind : Ray spec_float :=
  mkRay (q3 1 1 (-4) 4) (v3 0 0 1).

(** A ray travelling along [-z] from above. *)
Definition rayFromFront : Ray spec_float :=
  mkRay (q3 1 1 4 4) (v3 0 0 (-1)).

(** A ray inside the plane [z = 0]. *)
Definition rayInPlane : Ray spec_float :=
  mkRay (q3 1 1 0 4) (v3 1 0 0).

(** The same triangle scaled by 1/1000, double-sided, and a ray that meets
    it at a right angle. *)
Definition smallTri : Triangle spec_float :=
  mkTriangle (v3 0 0 0) (q3 1 0 0 1000) (q3 0 1 0 1000) red true.
Definition rayOnSmall : Ray spec_float :=
  mkRay (q3 1 1 4000 4000) (v3 0 0 (-1)).

(** A double-sided triangle with edges of length 10^20 and a ray of
    direction [(0, 0, -10^-20)] that meets it. *)
Definition hugeTri : Triangle spec_float :=
  mkTriangle (v3 0 0 0) (v3 (10 ^ 20) 0 0) (v3 0 (10 ^ 20) 0) red true.
Definition rayOnHuge : Ray spec_float :=
  mkRay (mkVector3 (B32.of_Z (10 ^ 18)) (B32.of_Z (10 ^ 18)) (lit 1 (10 ^ 10)))
        (mkVector3 (B32.of_Z 0) (B32.of_Z 0) (lit (-1) (10 ^ 20))).

(** A green floor in the plane [y = 0] facing up, a red copy of it one
    unit below, a copy three units above (between the floor and the light
    at [(2, 5, 1)]), and a ray that falls on the floor from [(0, 2, 0)]. *)
Definition layer (y : Z) (col : Vector3 spec_float) (ds : bool)
  : Triangle spec_float :=
  mkTriangle (v3 (-5) y 5) (v3 5 y 5) (v3 0 y (-5)) col ds.
Definition floorTri : Triangle spec_float := layer 0 green false.
Definition farTri : Triangle spec_float := layer (-1) red false.
Definition occluder : Triangle spec_float := layer 3 red true.
Definition rayDown : Ray spec_float := mkRay (v3 0 2 0) (v3 0 (-1) 0).

(** A double-sided triangle of side 10^-5 met at a right angle. *)
Definition tinyTri : Triangle spec_float :=
  mkTriangle (v3 0 0 0) (q3 1 0 0 100000) (q3 0 1 0 100000) red true.
Definition rayOnTiny : Ray spec_float :=
  mkRay (q3 1 1 400000 400000) (v3 0 0 (-1)).

(** A vector with a NaN coordinate. *)
Definition vNaN : Vector3 spec_float :=
  mkVector3 S754_nan (B32.of_Z 0) (B32.of_Z 0).

(** [(0.6f, 0.8f, 0)]: its computed length is exactly [1.0f]. *)
Definition n345 : Vector3 spec_float := q3 3 4 0 5.

(** Vectors with integer coordinates in exact arithmetic. *)
Definition r3 (x y z : Z) : Vector3 R :=
  mkVector3 (IZR x) (IZR y) (IZR z).

End Scenes.

(** ** Further parts of the program *)

Section ProgramMore.

Context {F : Type} {SF : Scalar F}.
Open Scope scalar_scope.

(** The locals [u] and [v] of [intersectTriangle], lines 106 and 112. *)
Definition hitU (tri : Triangle F) (ray : Ray F) : F :=
  let edge2 := vsub (v2 tri) (v0 tri) in
  let h := cross (direction ray) edge2 in
  let f := ofZ 1 / determinant tri ray in
  let s := vsub (origin ray) (v0 tri) in
  f * dot s h.

Definition hitV (tri : Triangle F) (ray : Ray F) : F :=
  let edge1 := vsub (v1 tri) (v0 tri) in
  let f := ofZ 1 / determinant tri ray in
  let s := vsub (origin ray) (v0 tri) in
  f * dot (direction ray) (cross s edge1).

End ProgramMore.

Module B32Sign.

(** A value whose sign bit is clear, or a NaN. *)
Definition sign_clear (x : spec_float) : bool :=
  match x with
  | S754_nan => true
  | S754_zero s | S754_infinity s | S754_finite s _ _ => negb s
  end.

End B32Sign.

(** Classes of binary32 values, for the statements on exact operations. *)
Module B32Class.

(** Zeros and finite non-zero values: neither an infinity nor a NaN. *)
Definition is_finite (x : spec_float) : bool :=
  match x with
  | S754_zero _ | S754_finite _ _ _ => true
  | _ => false
  end.

(** A value of the format: a finite one has the canonical mantissa and
    exponent of binary32. *)
Definition valid (x : spec_float) : bool := valid_binary B32.prec B32.emax x.

Definition validVec (v : Vector3 spec_float) : bool :=
  valid (vx v) && valid (vy v) && valid (vz v).

(** [x] when [s] is clear, [-x] when it is set. *)
Definition signed (s : bool) (x : spec_float) : spec_float :=
  if s then SFopp x else x.

(** A coordinate axis or its opposite: one component is [1.0f] or
    [-1.0f], the other two are zeros. *)
Definition axisNormal (n : Vector3 spec_float) : Prop :=
  (SFabs (vx n) = B32.of_Z 1
   /\ B32.is_zero (vy n) = true /\ B32.is_zero (vz n) = true)
  \/ (B32.is_zero (vx n) = true
      /\ SFabs (vy n) = B32.of_Z 1 /\ B32.is_zero (vz n) = true)
  \/ (B32.is_zero (vx n) = true
      /\ B32.is_zero (vy n) = true /\ SFabs (vz n) = B32.of_Z 1).

(** Finite and not zero. *)
Definition nonzero_finite (x : spec_float) : bool :=
  match x with S754_finite _ _ _ => true | _ => false end.

(** Twice a finite value when that does not overflow: the exponent goes
    up for a normal value, the mantissa is shifted for a subnormal one. *)
Definition doubled (x : spec_float) : spec_float :=
  match x with
  | S754_finite s m e =>
    if (Zpos (digits2_pos m) =? 24)%Z then S754_finite s m (e + 1)%Z
    else S754_finite s (xO m) e
  | _ => x
  end.

End B32Class.

(** ** The scene loader, [loadOBJ] (lines 218-277)

    The file is the list of lines [std::getline] yields, or nothing when
    the stream could not be opened. *)

Module Obj.

Local Open Scope char_scope.

(** Whitespace of the classic locale, which [operator>>] and [strtol]
    skip, and decimal digits. *)
Definition isspace (c : ascii) : bool :=
  (c =? " ") || ((9 <=? N_of_ascii c)%N && (N_of_ascii c <=? 13)%N).

Definition isdigit (c : ascii) : bool :=
  (48 <=? N_of_ascii c)%N && (N_of_ascii c <=? 57)%N.

Fixpoint skipSpace (s : string) : string :=
  match s with
  | String c r => if isspace c then skipSpace r else s
  | EmptyString => s
  end.

(** [iss >> token] on what is left of the line: leading whitespace is
    skipped and the characters up to the next whitespace are taken; the
    token is empty when nothing is left. *)
Fixpoint takeWord (s : string) : string * string :=
  match s with
  | String c r =>
    if isspace c then (EmptyString, s)
    else let '(w, rest) := takeWord r in (String c w, rest)
  | EmptyString => (EmptyString, EmptyString)
  end.

Definition nextToken (s : string) : string * string :=
  takeWord (skipSpace s).

(** [v.substr(0, v.find('/'))], or [v] itself when it has no ['/']. *)
Fixpoint beforeSlash (s : string) : string :=
  match s with
  | String c r => if c =? "/" then EmptyString else String c (beforeSlash r)
  | EmptyString => EmptyString
  end.

(** [std::stoi]: [strtol] in base 10 (leading whitespace, an optional
    sign, the longest run of digits), [None] where it throws: no digit, or
    a value outside [int]. *)
Fixpoint readDigits (s : string) (acc : Z) : Z :=
  match s with
  | String c r =>
    if isdigit c then readDigits r (10 * acc + (Z.of_N (N_of_ascii c) - 48))
    else acc
  | EmptyString => acc
  end.

Definition startsWithDigit (s : string) : bool :=
  match s with
  | String c _ => isdigit c
  | EmptyString => false
  end.

Definition INT_MIN : Z := -2147483648.
Definition INT_MAX : Z := 2147483647.

Definition stoi (s : string) : option Z :=
  let s1 := skipSpace s in
  let '(negative, s2) :=
    match s1 with
    | String c r =>
      if c =? "-" then (true, r)
      else if c =? "+" then (false, r) else (false, s1)
    | EmptyString => (false, s1)
    end in
  if startsWithDigit s2 then
    let n := readDigits s2 0 in
    let v := if negative then (- n)%Z else n in
    if (INT_MIN <=? v)%Z && (v <=? INT_MAX)%Z then Some v else None
  else None.

(** Every character of [s] passes the test [p]. *)
Fixpoint allChars (p : ascii -> bool) (s : string) : bool :=
  match s with
  | String c r => p c && allChars p r
  | EmptyString => true
  end.

(** The decimal numeral of an integer, and a face line written with three
    of them. *)
Definition decimal (n : Z) : string := NilZero.string_of_int (Z.to_int n).

Definition faceLine (a b c : Z) : string :=
  ("f " ++ decimal a ++ " " ++ decimal b ++ " " ++ decimal c)%string.

(** The characters of a decimal numeral. *)
Definition numeralChar (c : ascii) : bool := isdigit c || (c =? "-").

(** One pass of the loop of lines 249-261: the zero-based index of a
    face token.  For a number above [INT_MIN] this is the [int]
    subtraction of line 256.  At [INT_MIN] that subtraction overflows,
    which C++ leaves undefined: the model takes the mathematical value,
    and nothing is stated about the value of the index there. *)
Definition faceIndex (token : string) : option Z :=
  match stoi (beforeSlash token) with
  | Some n => Some (n - 1)%Z
  | None => None
  end.

Section Loader.

Context {F : Type} {SF : Scalar F}.

(** [float x, y, z; iss >> x >> y >> z;] (lines 238-239).  The three
    variables are not initialised, and an extraction that fails leaves the
    variables after it unwritten, so that what [Vector3(x, y, z)] holds
    depends on what they held before.  [readFloats prior rest] is what the
    extraction on the rest of the line leaves in them when they held
    [prior]; the stream extraction of [float] is a parameter.  [stale k]
    is what they hold when the line of the vertex of index [k] is
    reached: it is not determined by the program. *)
Variable readFloats : Vector3 F -> string -> Vector3 F.
Variable stale : nat -> Vector3 F.

(** The extraction writes all three variables: what it leaves does not
    depend on what they held.  This is the case of a line that holds three
    numbers. *)
Definition writesAll (rest : string) : Prop :=
  forall p q : Vector3 F, readFloats p rest = readFloats q rest.

Variables (color : Vector3 F) (scale : F) (offset : Vector3 F)
          (doubleSided : bool).

(** [vertices[i] * scale + offset], lines 266-268. *)
Definition placed (a : Vector3 F) : Vector3 F := vadd (vscale a scale) offset.

(** [a] was read from a ["v"] line of [lines], over some content of the
    variables; [tri] carries the colour and the flag of the call and three
    such vertices, placed. *)
Definition vertexRead (lines : list string) (a : Vector3 F) : Prop :=
  exists line rest prior,
    In line lines /\ nextToken line = ("v"%string, rest)
    /\ a = readFloats prior rest.

Definition loadedTriangle (lines : list string) (tri : Triangle F) : Prop :=
  exists a b c,
    vertexRead lines a /\ vertexRead lines b /\ vertexRead lines c
    /\ tri = mkTriangle (placed a) (placed b) (placed c) color doubleSided.

(** Lines 263-270: the triangle of three zero-based indices, when all are
    within [vertices]. *)
Definition faceTriangle (vertices : list (Vector3 F)) (i0 i1 i2 : Z)
  : option (Triangle F) :=
  let size := Z.of_nat (List.length vertices) in
  let vertex i :=
    placed (nth (Z.to_nat i) vertices (mkVector3 (ofZ 0) (ofZ 0) (ofZ 0))) in
  if (0 <=? i0)%Z && (i0 <? size)%Z && (0 <=? i1)%Z && (i1 <? size)%Z
     && (0 <=? i2)%Z && (i2 <? size)%Z
  then Some (mkTriangle (vertex i0) (vertex i1) (vertex i2) color doubleSided)
  else None.

(** The body of the [while] loop, lines 231-272, on the vertices and
    triangles collected so far. *)
Definition loadLine (st : list (Vector3 F) * list (Triangle F))
  (line : string) : list (Vector3 F) * list (Triangle F) :=
  let '(vertices, triangles) := st in
  match line with
  | EmptyString => st
  | String c _ =>
    if c =? "#" then st
    else
      let '(type, rest) := nextToken line in
      if String.eqb type "v" then
        (vertices ++ [readFloats (stale (List.length vertices)) rest],
         triangles)
      else if String.eqb type "f" then
        let '(t0, r0) := nextToken rest in
        let '(t1, r1) := nextToken r0 in
        let '(t2, _) := nextToken r1 in
        match faceIndex t0 with
        | None => st
        | Some i0 =>
          match faceIndex t1 with
          | None => st
          | Some i1 =>
            match faceIndex t2 with
            | None => st
            | Some i2 =>
              match faceTriangle vertices i0 i1 i2 with
              | Some tri => (vertices, triangles ++ [tri])
              | None => st
              end
            end
          end
        end
      else st
  end.

Definition loadOBJ (file : option (list string)) : list (Triangle F) :=
  match file with
  | None => []
  | Some lines => snd (fold_left loadLine lines ([], []))
  end.

End Loader.

(** A stand-in for the extraction of three floats, for examples: three
    integer tokens read with [stoi]; from the first token that is missing
    or is not a number on, the variables keep what they held.  With it, a
    stand-in for what they hold before each vertex line. *)
Definition readInts (prior : Vector3 spec_float) (s : string)
  : Vector3 spec_float :=
  let '(a, r0) := nextToken s in
  let '(b, r1) := nextToken r0 in
  let '(c, _) := nextToken r1 in
  match stoi a with
  | None => prior
  | Some x =>
    match stoi b with
    | None => mkVector3 (B32.of_Z x) (vy prior) (vz prior)
    | Some y =>
      match stoi c with
      | None => mkVector3 (B32.of_Z x) (B32.of_Z y) (vz prior)
      | Some z => mkVector3 (B32.of_Z x) (B32.of_Z y) (B32.of_Z z)
      end
    end
  end.

Definition sampleStale (k : nat) : Vector3 spec_float :=
  mkVector3 (B32.of_Z 7) (B32.of_Z 8) (B32.of_Z (9 + Z.of_nat k)).

Local Open Scope string_scope.

Definition sampleFile : list string :=
  [ "# a square, as two faces";
    "v 0 0 0"; "v 1 0 0"; "v 1 1 0"; "v 0 1 0";
    "vn 0 0 1";
    "";
    "f 1/1/1 2/2/1 3/3/1";
    "f 1 3 4 2";
    "f 1 2 5";
    "f -1 -2 -3";
    "f 0 1 2" ].

End Obj.

(** ** The camera, the scene of [main] and the render loop *)

(** IEEE-754 binary64, the arithmetic of the [double] subexpressions. *)
Module B64.

Definition prec : Z := 53.
Definition emax : Z := 1024.

Definition add := SFadd prec emax.
Definition sub := SFsub prec emax.
Definition mul := SFmul prec emax.
Definition div := SFdiv prec emax.

(** An [int] converted to [double]. *)
Definition of_Z (n : Z) : spec_float := binary_normalize prec emax n 0 false.

(** The literal [0.5]. *)
Definition half : spec_float := div (of_Z 1) (of_Z 2).

End B64.

Module Camera.

(** [PI], line 92: the binary32 value nearest to
    [3.14159265358979323846]. *)
Definition PI : spec_float := S754_finite false 13176795 (-22).

Section Camera.

(** [tan] of the C library, from [double] to [double]: a parameter. *)
Variable tan : spec_float -> spec_float.

(** [computePrimRay], lines 205-216.  [aspect] is a [float] quotient; the
    arguments of [tan], [px] and [py] are computed in [double] and
    converted to [float] when they are stored. *)
Definition computePrimRay (x y width height : Z)
  (cameraPos : Vector3 spec_float) : Ray spec_float :=
  let aspect := B32.div (B32.of_Z width) (B32.of_Z height) in
  let scale :=
    B32.of_double
      (tan (B64.div (B64.mul (B64.mul (B64.of_Z 60) B64.half)
                             (B32.to_double PI))
                    (B64.of_Z 180))) in
  let px :=
    B32.of_double
      (B64.mul
         (B64.mul
            (B64.sub (B64.mul (B64.of_Z 2)
                              (B64.div (B64.add (B64.of_Z x) B64.half)
                                       (B64.of_Z width)))
                     (B64.of_Z 1))
            (B32.to_double aspect))
         (B32.to_double scale)) in
  let py :=
    B32.of_double
      (B64.mul
         (B64.sub (B64.of_Z 1)
                  (B64.mul (B64.of_Z 2)
                           (B64.div (B64.add (B64.of_Z y) B64.half)
                                    (B64.of_Z height))))
         (B32.to_double scale)) in
  let direction := mkVector3 px py (B32.of_Z (-1)) in
  mkRay cameraPos (normalize direction).

(** [image[i] = v] on a vector.  Within the vector the element at [i] is
    replaced; outside it the access is undefined, and [store] gives
    nothing. *)
Fixpoint assign (A : Type) (image : list A) (i : nat) (v : A) : list A :=
  match image, i with
  | [], _ => []
  | _ :: rest, O => v :: rest
  | a :: rest, S j => a :: assign rest j v
  end.

Definition store (A : Type) (image : list A) (i : Z) (v : A)
  : option (list A) :=
  if (0 <=? i)%Z && (i <? Z.of_nat (List.length image))%Z
  then Some (assign image (Z.to_nat i) v)
  else None.

(** The values [0, 1, ..., n - 1] of a loop counter. *)
Definition counter (n : Z) : list Z := map Z.of_nat (seq 0 (Z.to_nat n)).

(** The two nested loops of lines 328-333 over a buffer of
    [width * height] default vectors (line 282), for any colour of the
    pixel [(x, y)] and sizes that are not negative; nothing is returned
    once a store has fallen outside the buffer. *)
Definition renderLoop (A : Type) (pixel : Z -> Z -> A) (blank : A)
  (width height : Z) : option (list A) :=
  fold_left
    (fun image y =>
       fold_left
         (fun image x =>
            match image with
            | Some im => store im (y * width + x) (pixel x y)
            | None => None
            end)
         (counter width) image)
    (counter height)
    (Some (repeat blank (Z.to_nat (width * height)))).

Variable powf : spec_float -> Z -> spec_float.

(** What [iss >> x >> y >> z] leaves and what the variables held, as in
    the loader. *)
Variable readFloats : Vector3 spec_float -> string -> Vector3 spec_float.
Variable stale : nat -> Vector3 spec_float.

(** The scene [main] assembles, lines 283-322, from what the OBJ file
    holds. *)
Definition mainLightPos : Vector3 spec_float := Scenes.v3 2 5 1.

Definition lightTriangle (i : Z) : Triangle spec_float :=
  let offset :=
    if (i =? 1)%Z then mkVector3 (fneg (lit 1 10)) (lit 1 10) (lit 1 10)
    else if (i =? 2)%Z then mkVector3 (lit 1 10) (fneg (lit 1 10)) (lit 1 10)
    else mkVector3 (lit 1 10) (lit 1 10) (lit 1 10) in
  mkTriangle mainLightPos
             (vadd (vadd mainLightPos (mkVector3 (lit 2 10) (ofZ 0) (ofZ 0)))
                   offset)
             (vadd (vadd mainLightPos (mkVector3 (ofZ 0) (lit 2 10) (ofZ 0)))
                   offset)
             (mkVector3 (ofZ 1) (ofZ 1) (lit 1 2)) true.

Definition mainTriangles (file : option (list string))
  : list (Triangle spec_float) :=
  let cylinder :=
    Obj.loadOBJ readFloats stale
                (mkVector3 (lit 8 10) (lit 5 10) (lit 2 10))
                (ofZ 1) (Scenes.v3 0 0 (-2)) true file in
  let floorColor := mkVector3 (lit 3 10) (lit 6 10) (lit 3 10) in
  let wallColor := mkVector3 (lit 4 10) (lit 4 10) (lit 6 10) in
  cylinder
  ++ [ mkTriangle (Scenes.v3 (-5) (-1) (-5)) (Scenes.v3 5 (-1) (-5))
                  (Scenes.v3 5 (-1) 5) floorColor true;
       mkTriangle (Scenes.v3 (-5) (-1) (-5)) (Scenes.v3 5 (-1) 5)
                  (Scenes.v3 (-5) (-1) 5) floorColor true;
       mkTriangle (Scenes.v3 (-5) 5 (-5)) (Scenes.v3 5 5 (-5))
                  (Scenes.v3 5 (-1) (-5)) wallColor true;
       mkTriangle (Scenes.v3 (-5) 5 (-5)) (Scenes.v3 5 (-1) (-5))
                  (Scenes.v3 (-5) (-1) (-5)) wallColor true ]
  ++ map lightTriangle (counter 3).

(** The image [main] computes, lines 279-333. *)
Definition mainImage (file : option (list string))
  : option (list (Vector3 spec_float)) :=
  let width := 800%Z in
  let height := 600%Z in
  let cameraPos := mkVector3 (B32.of_Z 0) (lit 3 2) (B32.of_Z 4) in
  renderLoop
    (fun x y =>
       trace powf (computePrimRay x y width height cameraPos)
             (mainTriangles file) 0)
    (mkVector3 (B32.of_Z 0) (B32.of_Z 0) (B32.of_Z 0))
    width height.

End Camera.

(** A stand-in for [tan], for examples: the constant
    [0.5773502691896257], the tangent of 30 degrees. *)
Definition tan30 (_ : spec_float) : spec_float :=
  B64.div (B64.of_Z 5773502691896257) (B64.of_Z (10 ^ 16)).

End Camera.

Unset Implicit Arguments.

(** ** The intersection test: what a call returns and what it leaves *)

Section Intersect.

Context {F : Type} {SF : Scalar F}.
Open Scope scalar_scope.

Implicit Types (tri : Triangle F) (ray : Ray F) (hit h : HitRecord F).

Lemma intersect_culled tri ray hit :
  cullTest tri (determinant tri ray) = true ->
  intersectTriangle tri ray hit = (false, hit).
Proof.
  intros Hc. unfold intersectTriangle. now rewrite Hc.
Qed.

Lemma intersect_false tri ray hit h :
  intersectTriangle tri ray hit = (false, h) -> h = hit.
Proof.
  unfold intersectTriangle.
  repeat match goal with
         | |- context [if ?c then _ else _] => destruct c
         end; intros E; inversion E; reflexivity.
Qed.

Lemma intersect_true tri ray hit h :
  intersectTriangle tri ray hit = (true, h) ->
  h = mkHitRecord (pointAt ray (hitDistance tri ray)) (hitNormal tri ray)
                  (hitDistance tri ray) (Some tri)
  /\ (hitDistance tri ray >? EPSILON) = true
  /\ (hitDistance tri ray <? distance hit) = true.
Proof.
  unfold intersectTriangle.
  destruct (cullTest _ _); [discriminate|].
  destruct (_ || _); [discriminate|].
  destruct (_ || _); [discriminate|].
  match goal with
  | |- context [if ?c then _ else _] => destruct c eqn:Ht
  end; [|discriminate].
  apply andb_prop in Ht. destruct Ht as [Hlo Hhi].
  intros E. inversion E. auto.
Qed.

End Intersect.

(** ** Order facts of the binary32 comparisons *)

Ltac sf_compare_cases :=
  repeat match goal with
         | H : context [Z.compare ?a ?b] |- _ => destruct (Z.compare_spec a b)
         | |- context [Z.compare ?a ?b] => destruct (Z.compare_spec a b)
         | H : context [Pos.compare_cont Eq ?a ?b] |- _ =>
           change (Pos.compare_cont Eq a b) with (Pos.compare a b) in *;
           destruct (Pos.compare_spec a b)
         | |- context [Pos.compare_cont Eq ?a ?b] =>
           change (Pos.compare_cont Eq a b) with (Pos.compare a b) in *;
           destruct (Pos.compare_spec a b)
         end;
  simpl in *; try discriminate; try reflexivity; try lia.

Ltac sf_order :=
  unfold SFltb, SFleb, SFcompare; intros;
  repeat match goal with
         | x : spec_float |- _ => destruct x
         end;
  repeat match goal with
         | s : bool |- _ => destruct s
         end;
  simpl in *; try discriminate; try reflexivity;
  sf_compare_cases.

Lemma SFltb_irrefl x : SFltb x x = false.
Proof. sf_order. Qed.

Lemma SFltb_SFleb x y : SFltb x y = true -> SFleb x y = true.
Proof. sf_order. Qed.

Lemma SFltb_asym x y : SFltb x y = true -> SFltb y x = false.
Proof. sf_order. Qed.

Lemma SFltb_SFleb_trans x y z :
  SFltb x y = true -> SFleb y z = true -> SFltb x z = true.
Proof. sf_order. Qed.

Lemma SFleb_SFltb_trans x y z :
  SFleb x y = true -> SFltb y z = true -> SFltb x z = true.
Proof. sf_order. Qed.

Lemma SFltb_total x y b :
  SFltb x b = true -> SFltb y b = true ->
  SFltb x y = false -> SFleb y x = true.
Proof. sf_order. Qed.

#[export] Instance binary32_order : ScalarOrder spec_float.
Proof.
  constructor; simpl.
  - exact SFltb_irrefl.
  - exact SFltb_SFleb.
  - exact SFltb_SFleb_trans.
  - exact SFleb_SFltb_trans.
  - exact SFltb_total.
Qed.

(** The sign given to a rounding passes through it unchanged. *)
Lemma binary_round_aux_opp prec emax s m e l :
  binary_round_aux prec emax (negb s) m e l
  = SFopp (binary_round_aux prec emax s m e l).
Proof.
  unfold binary_round_aux.
  destruct (shr_fexp prec emax m e l) as [mrs' e'].
  destruct (shr_fexp prec emax _ e' loc_Exact) as [mrs'' e''].
  destruct (shr_m mrs''); try reflexivity.
  destruct (e'' <=? emax - prec)%Z; reflexivity.
Qed.

Lemma binary_round_opp prec emax s m e :
  binary_round prec emax (negb s) m e = SFopp (binary_round prec emax s m e).
Proof.
  unfold binary_round.
  destruct (shl_align m e _) as [mz ez].
  apply binary_round_aux_opp.
Qed.

Lemma binary_round_aux_sign prec emax s m e l :
  binary_round_aux prec emax s m e l = S754_nan
  \/ binary_round_aux prec emax s m e l = S754_zero s
  \/ binary_round_aux prec emax s m e l = S754_infinity s
  \/ exists m' e', binary_round_aux prec emax s m e l = S754_finite s m' e'.
Proof.
  unfold binary_round_aux.
  destruct (shr_fexp prec emax m e l) as [mrs' e'].
  destruct (shr_fexp prec emax _ e' loc_Exact) as [mrs'' e''].
  destruct (shr_m mrs''); auto.
  destruct (e'' <=? emax - prec)%Z; eauto 10.
Qed.

Lemma binary_round_sign prec emax s m e :
  binary_round prec emax s m e = S754_nan
  \/ binary_round prec emax s m e = S754_zero s
  \/ binary_round prec emax s m e = S754_infinity s
  \/ exists m' e', binary_round prec emax s m e = S754_finite s m' e'.
Proof.
  unfold binary_round.
  destruct (shl_align m e _) as [mz ez].
  apply binary_round_aux_sign.
Qed.

Lemma binary_normalize_opp prec emax z e :
  B32.same_number (binary_normalize prec emax (- z) e false)
                  (SFopp (binary_normalize prec emax z e false)).
Proof.
  destruct z as [|p|p]; simpl.
  - right. auto.
  - left. exact (binary_round_opp prec emax false p e).
  - left. change false with (negb true) at 1.
    rewrite binary_round_opp. now destruct (binary_round prec emax true p e).
Qed.

Lemma same_number_trans x y z :
  B32.same_number x y -> B32.same_number y z -> B32.same_number x z.
Proof.
  intros [-> | [Hx Hy]] [<- | [Hy' Hz]]; unfold B32.same_number; auto.
Qed.

Lemma mul_opp_l x y : B32.mul (SFopp x) y = SFopp (B32.mul x y).
Proof.
  destruct x as [sx|sx| |sx mx ex], y as [sy|sy| |sy my ey]; simpl;
    try reflexivity; try (now destruct sx, sy).
  rewrite <- binary_round_aux_opp. now destruct sx, sy.
Qed.

Lemma add_opp x y :
  B32.same_number (B32.add (SFopp x) (SFopp y)) (SFopp (B32.add x y)).
Proof.
  destruct x as [sx|sx| |sx mx ex], y as [sy|sy| |sy my ey];
    try (left; reflexivity);
    try solve [destruct sx, sy; simpl;
               (left; reflexivity) || (right; split; reflexivity)].
  unfold B32.add. cbn [SFopp SFadd].
  match goal with
  | |- B32.same_number (binary_normalize _ _ ?a _ _)
                       (SFopp (binary_normalize _ _ ?b _ _)) =>
    replace a with (- b)%Z by (destruct sx, sy; cbv [cond_Zopp negb]; lia)
  end.
  apply binary_normalize_opp.
Qed.

Lemma add_same_number_l x x' y :
  B32.same_number x x' -> B32.same_number (B32.add x y) (B32.add x' y).
Proof.
  intros [-> | [Hx Hx']]; [now left|].
  destruct x; try discriminate. destruct x'; try discriminate.
  destruct y as [sy|sy| |sy my ey]; simpl; try (now left).
  destruct s, s0, sy; simpl; (now left) || (right; split; reflexivity).
Qed.

Lemma SFltb_same_number_r z x x' :
  B32.same_number x x' -> SFltb z x = SFltb z x'.
Proof.
  intros [-> | [Hx Hx']]; [reflexivity|].
  destruct x; try discriminate. destruct x'; try discriminate.
  now destruct z.
Qed.

Lemma SFltb_zero_opp x :
  SFltb (S754_zero false) x = true ->
  SFltb (S754_zero false) (SFopp x) = false.
Proof.
  destruct x as [s|s| |s m e]; try destruct s; intros H;
    reflexivity || discriminate H.
Qed.

Lemma SFleb_zero_of_not_gt x :
  x <> S754_nan -> SFltb (S754_zero false) x = false ->
  SFleb x (S754_zero false) = true.
Proof.
  destruct x as [s|s| |s m e]; try destruct s; intros N H;
    reflexivity || discriminate H || now destruct N.
Qed.

(** [|a| < E] is the conjunction tested at line 101, for a positive [E]. *)
Lemma SFabs_lt_iff a m e :
  SFltb (SFabs a) (S754_finite false m e)
  = SFltb a (S754_finite false m e) && SFltb (S754_finite true m e) a.
Proof.
  destruct a as [s|s| |s ma ea]; try destruct s; try reflexivity;
    unfold SFltb, SFabs, SFcompare; sf_compare_cases.
Qed.

Lemma EPSILON_binary32 :
  (EPSILON : spec_float) = S754_finite false 10995116 (-40).
Proof. vm_compute. reflexivity. Qed.

(** A product with an infinite factor is infinite or NaN, and such a
    candidate distance fails the test of line 118. *)
Lemma mul_infinity s x :
  B32.mul (S754_infinity s) x = S754_nan
  \/ exists s', B32.mul (S754_infinity s) x = S754_infinity s'.
Proof. destruct x; simpl; eauto. Qed.

Lemma infinite_distance_rejected t d :
  t = S754_nan \/ (exists s, t = S754_infinity s) ->
  SFltb (S754_finite false 10995116 (-40)) t && SFltb t d = false.
Proof.
  intros [-> | [s ->]]; [reflexivity|].
  destruct s; [reflexivity|].
  destruct d as [sd|sd| |sd md ed]; try destruct sd; reflexivity.
Qed.

(** ** The nearest-hit scan *)

Section Scan.

Context {F : Type} {SF : Scalar F} {SO : ScalarOrder F}.
Open Scope scalar_scope.

Implicit Types (tri : Triangle F) (ray : Ray F) (h c : HitRecord F).

Lemma accepts_functional ray tri h h' :
  accepts ray tri h -> accepts ray tri h' -> h = h'.
Proof. unfold accepts. congruence. Qed.

Lemma accepts_range ray tri h :
  accepts ray tri h ->
  (distance h >? EPSILON) = true /\ (distance h <? FLT_MAX) = true.
Proof.
  intros A. apply intersect_true in A. destruct A as (-> & Hlo & Hhi).
  simpl in *. auto.
Qed.

Lemma accepts_triangle ray tri h : accepts ray tri h -> triangle h = Some tri.
Proof.
  intros A. apply intersect_true in A. destruct A as (-> & _). reflexivity.
Qed.

Lemma accepted_fleb_refl ray tri h :
  accepts ray tri h -> (distance h <=? distance h) = true.
Proof.
  intros A. destruct (accepts_range _ _ _ A) as [_ Hhi].
  apply (fltb_total _ _ _ Hhi Hhi). apply fltb_irrefl.
Qed.

Lemma closestStep_invariant ray seen c tri :
  nearestAmong ray seen c ->
  nearestAmong ray (seen ++ [tri]) (closestStep ray c tri).
Proof.
  intros Inv.
  destruct (intersectTriangle tri ray newHitRecord) as [[|] h] eqn:E.
  - (* the triangle is hit *)
    assert (A : accepts ray tri h) by exact E.
    destruct (accepts_range _ _ _ A) as [_ Hmax].
    unfold closestStep. rewrite E. simpl.
    destruct Inv as [[-> None] | [[tri0 [In0 A0]] Min]].
    + simpl. rewrite Hmax. right. split.
      * exists tri. split; [apply in_or_app; right; now left | exact A].
      * intros tri' h' In' A'. apply in_app_or in In'.
        destruct In' as [In' | [<- | []]].
        -- now destruct (None _ _ In' A').
        -- rewrite (accepts_functional _ _ _ _ A' A). exact (accepted_fleb_refl _ _ _ A).
    + destruct (distance h <? distance c) eqn:Lt.
      * right. split.
        -- exists tri. split; [apply in_or_app; right; now left | exact A].
        -- intros tri' h' In' A'. apply in_app_or in In'.
           destruct In' as [In' | [<- | []]].
           ++ apply fltb_fleb.
              exact (fltb_fleb_trans _ _ _ Lt (Min _ _ In' A')).
           ++ rewrite (accepts_functional _ _ _ _ A' A). exact (accepted_fleb_refl _ _ _ A).
      * right. split.
        -- exists tri0. split; [apply in_or_app; now left | exact A0].
        -- intros tri' h' In' A'. apply in_app_or in In'.
           destruct In' as [In' | [<- | []]].
           ++ exact (Min _ _ In' A').
           ++ rewrite (accepts_functional _ _ _ _ A' A).
              destruct (accepts_range _ _ _ A0) as [_ Hc].
              exact (fltb_total _ _ _ Hmax Hc Lt).
  - (* the triangle is missed *)
    unfold closestStep at 1. rewrite E. simpl.
    assert (Miss : forall h', ~ accepts ray tri h').
    { unfold accepts. intros h' A. congruence. }
    destruct Inv as [[-> None] | [[tri0 [In0 A0]] Min]].
    + left. split; [reflexivity|].
      intros tri' h' In' A'. apply in_app_or in In'.
      destruct In' as [In' | [<- | []]].
      * exact (None _ _ In' A').
      * exact (Miss _ A').
    + right. split.
      * exists tri0. split; [apply in_or_app; now left | exact A0].
      * intros tri' h' In' A'. apply in_app_or in In'.
        destruct In' as [In' | [<- | []]].
        -- exact (Min _ _ In' A').
        -- now destruct (Miss _ A').
Qed.

Lemma scan_invariant ray triangles :
  forall seen c,
    nearestAmong ray seen c ->
    nearestAmong ray (seen ++ triangles)
                 (fold_left (closestStep ray) triangles c).
Proof.
  induction triangles as [|tri rest IH]; intros seen c Inv; simpl.
  - now rewrite app_nil_r.
  - replace (seen ++ tri :: rest) with ((seen ++ [tri]) ++ rest)
      by now rewrite <- app_assoc.
    apply IH. now apply closestStep_invariant.
Qed.

Lemma closestHitScan_nearest ray triangles :
  nearestAmong ray triangles (closestHitScan ray triangles).
Proof.
  unfold closestHitScan.
  apply (scan_invariant ray triangles []).
  left. split; [reflexivity | intros ? ? []].
Qed.

Lemma closestHitScan_hit ray triangles tri h :
  In tri triangles -> accepts ray tri h ->
  (exists tri', In tri' triangles
                /\ accepts ray tri' (closestHitScan ray triangles))
  /\ (distance (closestHitScan ray triangles) <=? distance h) = true.
Proof.
  intros Hin A.
  destruct (closestHitScan_nearest ray triangles) as [[_ None] | [Ex Min]].
  - now destruct (None _ _ Hin A).
  - split; [exact Ex | exact (Min _ _ Hin A)].
Qed.

End Scan.

(** ** The integrator *)

Section Trace.

Context {F : Type} {SF : Scalar F}.
Variable powf : F -> Z -> F.
Open Scope scalar_scope.

Implicit Types (tri : Triangle F) (ray : Ray F) (h c : HitRecord F).

Lemma scan_all_missed ray triangles :
  (forall tri, In tri triangles ->
               fst (intersectTriangle tri ray newHitRecord) = false) ->
  forall c, fold_left (closestStep ray) triangles c = c.
Proof.
  induction triangles as [|tri rest IH]; intros Miss c; simpl; [reflexivity|].
  assert (Step : closestStep ray c tri = c).
  { unfold closestStep.
    generalize (Miss tri (or_introl eq_refl)).
    destruct (intersectTriangle tri ray newHitRecord) as [b h].
    simpl. now intros ->. }
  rewrite Step. apply IH. intros tri' Hin. apply Miss. now right.
Qed.

Lemma closestHitScan_miss ray triangles :
  (forall tri, In tri triangles ->
               fst (intersectTriangle tri ray newHitRecord) = false) ->
  closestHitScan ray triangles = newHitRecord.
Proof. intros Miss. exact (scan_all_missed ray triangles Miss _). Qed.

(** The equation of [trace]: the body of lines 136-202, the recursive call
    being [trace] itself at [depth + 1]. *)
Lemma trace_unfold ray triangles depth :
  trace powf ray triangles depth =
  if (depth >? 3)%Z then black
  else
    let closestHit := closestHitScan ray triangles in
    match triangle closestHit with
    | None => background
    | Some tri =>
      shade powf (fun r => trace powf r triangles (depth + 1))
            ray triangles depth closestHit tri
    end.
Proof.
  unfold trace.
  destruct (Z.to_nat (3 - depth)) as [|n] eqn:En; cbn [traceFrom];
    destruct (depth >? 3)%Z eqn:Hd; try reflexivity; cbv zeta;
    destruct (triangle (closestHitScan ray triangles)); try reflexivity;
    unfold shade, reflectionOf;
    destruct (depth <? 3)%Z eqn:H3; cbn [andb]; try reflexivity.
  - apply Z.ltb_lt in H3. lia.
  - replace (Z.to_nat (3 - (depth + 1))) with n by lia. reflexivity.
Qed.

Lemma trace_hit ray triangles depth tri :
  (depth <= 3)%Z ->
  triangle (closestHitScan ray triangles) = Some tri ->
  trace powf ray triangles depth =
  shade powf (fun r => trace powf r triangles (depth + 1))
        ray triangles depth (closestHitScan ray triangles) tri.
Proof.
  intros Hd Ht. rewrite trace_unfold.
  rewrite Z.gtb_ltb. replace (3 <? depth)%Z with false
    by (symmetry; apply Z.ltb_ge; lia).
  cbv zeta. now rewrite Ht.
Qed.

Lemma inShadowScan_occluder c triangles occ :
  In occ triangles -> occludes c occ = true ->
  inShadowScan c triangles = true.
Proof.
  intros Hin Ho. unfold inShadowScan. apply existsb_exists. eauto.
Qed.

End Trace.

(** ** Properties of the intersection test and of the integrator *)

Import Scenes.
Local Open Scope Z_scope.

(** C10.  When [intersectTriangle] returns [false] the record it was given
    is left unchanged in all four fields; the record is changed only on a
    [true] return; and a [true] return requires the candidate distance [t]
    to be strictly less than the distance the record came with (the new
    record then carries [t]). *)
Theorem intersectTriangle_frame {F : Type} {SF : Scalar F}
  (tri : Triangle F) (ray : Ray F) (hit : HitRecord F) :
  (fst (intersectTriangle tri ray hit) = false ->
   snd (intersectTriangle tri ray hit) = hit)
  /\ (snd (intersectTriangle tri ray hit) <> hit ->
      fst (intersectTriangle tri ray hit) = true)
  /\ (fst (intersectTriangle tri ray hit) = true ->
      (hitDistance tri ray <? distance hit)%fl = true
      /\ distance (snd (intersectTriangle tri ray hit)) = hitDistance tri ray).
Proof.
  destruct (intersectTriangle tri ray hit) as [[|] h] eqn:E; simpl.
  - apply intersect_true in E. destruct E as (-> & _ & Hlt).
    repeat split; auto. discriminate.
  - apply intersect_false in E. subst h.
    repeat split; auto; try discriminate.
Qed.

Lemma intersectTriangle_frame_witness :
  snd (intersectTriangle (unitTri false) rayInPlane newHitRecord)
  = newHitRecord
  /\ (hitDistance floorTri rayDown <? FLT_MAX)%fl = true.
Proof.
  split.
  - apply (proj1 (intersectTriangle_frame (unitTri false) rayInPlane
                                           newHitRecord)).
    vm_compute. reflexivity.
  - apply (proj2 (proj2 (intersectTriangle_frame floorTri rayDown
                                                  newHitRecord))).
    vm_compute. reflexivity.
Defined.

(** C6.  At every depth above 3, [trace] returns [(0, 0, 0)] whatever the
    ray and the triangle list are. *)
Theorem trace_depth_ceiling {F : Type} {SF : Scalar F} (powf : F -> Z -> F)
  (ray : Ray F) (triangles : list (Triangle F)) (depth : Z) :
  (depth > 3)%Z ->
  trace powf ray triangles depth = mkVector3 (ofZ 0) (ofZ 0) (ofZ 0).
Proof.
  intros Hd. rewrite trace_unfold.
  replace (depth >? 3)%Z with true; [reflexivity|].
  symmetry. apply Z.gtb_lt. lia.
Qed.

Lemma trace_depth_ceiling_witness :
  trace B32.powi rayDown [floorTri; occluder] 4
  = mkVector3 (S754_zero false) (S754_zero false) (S754_zero false).
Proof.
  exact (trace_depth_ceiling B32.powi rayDown [floorTri; occluder] 4
           eq_refl).
Defined.

(** C7.  On the empty triangle list every ray gets the background colour
    [(0.2f, 0.7f, 0.8f)], and so does, in any scene, a ray that no triangle
    registers.  [trace] is a total function: no call faults.  The depth is
    one at which the scan is run, [depth <= 3], as in every call the
    program makes; above it the ceiling of line 136 answers first. *)
Theorem trace_background {F : Type} {SF : Scalar F} (powf : F -> Z -> F) :
  (forall ray : Ray F,
      trace powf ray [] 0 = mkVector3 (lit 2 10) (lit 7 10) (lit 8 10))
  /\ (forall (ray : Ray F) (depth : Z),
         (depth <= 3)%Z ->
         trace powf ray [] depth
         = mkVector3 (lit 2 10) (lit 7 10) (lit 8 10))
  /\ (forall (ray : Ray F) (triangles : list (Triangle F)) (depth : Z),
         (depth <= 3)%Z ->
         (forall tri, In tri triangles ->
                      fst (intersectTriangle tri ray newHitRecord) = false) ->
         trace powf ray triangles depth
         = mkVector3 (lit 2 10) (lit 7 10) (lit 8 10)).
Proof.
  assert (G : forall (ray : Ray F) (triangles : list (Triangle F)) depth,
             (depth <= 3)%Z ->
             (forall tri, In tri triangles ->
                fst (intersectTriangle tri ray newHitRecord) = false) ->
             trace powf ray triangles depth = background).
  { intros ray triangles depth Hd Miss. rewrite trace_unfold.
    rewrite Z.gtb_ltb. replace (3 <? depth)%Z with false
      by (symmetry; apply Z.ltb_ge; lia).
    cbv zeta. now rewrite (closestHitScan_miss ray triangles Miss). }
  split; [|split].
  - intros ray. apply G; [lia | intros ? []].
  - intros ray depth Hd. apply G; [lia | intros ? []].
  - exact G.
Qed.

Lemma trace_background_witness :
  trace B32.powi rayFromFront [occluder; farTri] 2
  = mkVector3 (S754_finite false 13421773 (-26))
              (S754_finite false 11744051 (-24))
              (S754_finite false 13421773 (-24)).
Proof.
  change (trace B32.powi rayFromFront [occluder; farTri] 2
          = mkVector3 (lit 2 10) (lit 7 10) (lit 8 10)).
  apply (proj2 (proj2 (trace_background B32.powi))
           rayFromFront [occluder; farTri] 2).
  - lia.
  - intros tri [<- | [<- | []]]; vm_compute; reflexivity.
Defined.

(** C4.  When [trace] has found a nearest hit and some triangle of the
    scene meets the shadow ray (from [position + normal * EPSILON] towards
    the light at [(2, 5, 1)]) at a distance strictly between 0 and the
    distance from the hit position to the light, the colour returned is the
    ambient term [materialColor * 0.3f] plus the reflection term alone:
    neither diffuse nor specular light enters it. *)
Theorem trace_in_shadow {F : Type} {SF : Scalar F} (powf : F -> Z -> F)
  (ray : Ray F) (triangles : list (Triangle F)) (depth : Z)
  (tri occ : Triangle F) (shadowHit : HitRecord F) :
  let closestHit := closestHitScan ray triangles in
  let light := mkVector3 (ofZ 2) (ofZ 5) (ofZ 1) in
  let shadowRay :=
    mkRay (vadd (position closestHit) (vscale (normal closestHit) EPSILON))
          (normalize (vsub light (position closestHit))) in
  (depth <= 3)%Z ->
  triangle closestHit = Some tri ->
  In occ triangles ->
  intersectTriangle occ shadowRay newHitRecord = (true, shadowHit) ->
  (distance shadowHit >? ofZ 0)%fl = true ->
  (distance shadowHit <? length (vsub light (position closestHit)))%fl
  = true ->
  trace powf ray triangles depth
  = vadd (vscale (color tri) (lit 3 10))
         (if (depth <? 3)%Z && (vx (color tri) >? lit 7 10)%fl
          then vscale (trace powf (reflectRayOf ray closestHit) triangles
                             (depth + 1))
                      (lit 1 2)
          else mkVector3 (ofZ 0) (ofZ 0) (ofZ 0)).
Proof.
  intros closestHit light shadowRay Hd Ht Hin Hs Hpos Hlt.
  rewrite (trace_hit powf ray triangles depth tri Hd Ht).
  unfold shade. fold closestHit.
  rewrite (inShadowScan_occluder closestHit triangles occ Hin).
  - reflexivity.
  - unfold occludes.
    change (shadowRayOf closestHit) with shadowRay. rewrite Hs. cbn [andb].
    change lightPos with light. now rewrite Hpos, Hlt.
Qed.

Lemma trace_in_shadow_witness :
  trace B32.powi rayDown [floorTri; occluder] 0
  = vadd (vscale green (lit 3 10))
         (mkVector3 (S754_zero false) (S754_zero false) (S754_zero false)).
Proof.
  change (mkVector3 (S754_zero false) (S754_zero false) (S754_zero false))
    with (if (0 <? 3)%Z && (vx (color floorTri) >? lit 7 10)%fl
          then vscale (trace B32.powi
                         (reflectRayOf rayDown
                            (closestHitScan rayDown [floorTri; occluder]))
                         [floorTri; occluder] (0 + 1))
                      (lit 1 2)
          else mkVector3 (ofZ 0) (ofZ 0) (ofZ 0)).
  apply (trace_in_shadow B32.powi rayDown [floorTri; occluder] 0
           floorTri occluder
           (snd (intersectTriangle occluder
                   (shadowRayOf (closestHitScan rayDown [floorTri; occluder]))
                   newHitRecord))).
  - lia.
  - vm_compute. reflexivity.
  - simpl. auto.
  - vm_compute. reflexivity.
  - vm_compute. reflexivity.
  - vm_compute. reflexivity.
Defined.

(** C1.  For every ray and triangle list, in binary32 arithmetic: every
    registered hit has a distance above [EPSILON], and the record kept by
    the scan of [trace] is the record of a triangle of the scene whose
    distance is at most that of every registered hit.  Hence a farther hit
    is never the one kept, and when one triangle is strictly nearer than
    every other registered hit the colour returned is the shading of that
    triangle's record. *)
Theorem closest_hit_is_nearest (ray : Ray spec_float)
  (triangles : list (Triangle spec_float)) :
  (forall tri h,
      In tri triangles -> accepts ray tri h ->
      (distance h >? EPSILON)%fl = true
      /\ (exists tri', In tri' triangles
                       /\ accepts ray tri' (closestHitScan ray triangles))
      /\ (distance (closestHitScan ray triangles) <=? distance h)%fl = true)
  /\ (forall near far hn hf,
         In near triangles -> In far triangles ->
         accepts ray near hn -> accepts ray far hf ->
         (distance hn <? distance hf)%fl = true ->
         closestHitScan ray triangles <> hf)
  /\ (forall near hn,
         In near triangles -> accepts ray near hn ->
         (forall tri h, In tri triangles -> accepts ray tri h ->
                        h = hn \/ (distance hn <? distance h)%fl = true) ->
         closestHitScan ray triangles = hn
         /\ forall powf depth,
             depth <= 3 ->
             trace powf ray triangles depth
             = shade powf (fun r => trace powf r triangles (depth + 1))
                     ray triangles depth hn near).
Proof.
  split; [|split].
  - intros tri h Hin A.
    destruct (closestHitScan_hit ray triangles tri h Hin A) as [Ex Min].
    destruct (accepts_range ray tri h A) as [Hlo _].
    auto.
  - intros near far hn hf Hn _ An _ Lt E.
    destruct (closestHitScan_hit ray triangles near hn Hn An) as [_ Min].
    rewrite E in Min.
    generalize (fleb_fltb_trans _ _ _ Min Lt).
    now rewrite fltb_irrefl.
  - intros near hn Hn An Strict.
    assert (E : closestHitScan ray triangles = hn).
    { destruct (closestHitScan_hit ray triangles near hn Hn An)
        as [[tri' [Hin' A']] Min].
      destruct (Strict _ _ Hin' A') as [E | Lt]; [exact E|].
      generalize (fleb_fltb_trans _ _ _ Min Lt).
      now rewrite fltb_irrefl. }
    split; [exact E|].
    intros powf depth Hd.
    rewrite <- E.
    apply trace_hit; [exact Hd|].
    rewrite E. exact (accepts_triangle ray near hn An).
Qed.

Lemma closest_hit_is_nearest_witness :
  closestHitScan rayDown [farTri; floorTri]
  = snd (intersectTriangle floorTri rayDown newHitRecord)
  /\ closestHitScan rayDown [farTri; floorTri]
     <> snd (intersectTriangle farTri rayDown newHitRecord).
Proof.
  split.
  - refine (proj1 (proj2 (proj2 (closest_hit_is_nearest
                                   rayDown [farTri; floorTri]))
                     floorTri
                     (snd (intersectTriangle floorTri rayDown newHitRecord))
                     _ _ _)).
    + simpl. auto.
    + vm_compute. reflexivity.
    + intros tri h [<- | [<- | []]] A; unfold accepts in A;
        vm_compute in A; injection A as <-; [right | left];
        vm_compute; reflexivity.
  - refine (proj1 (proj2 (closest_hit_is_nearest rayDown [farTri; floorTri]))
             floorTri farTri
             (snd (intersectTriangle floorTri rayDown newHitRecord))
             (snd (intersectTriangle farTri rayDown newHitRecord))
             _ _ _ _ _).
    + simpl. auto.
    + simpl. auto.
    + vm_compute. reflexivity.
    + vm_compute. reflexivity.
    + vm_compute. reflexivity.
Defined.

(** C2 (what the code does).  The single-sided triangle
    [(0,0,0) (1,0,0) (0,1,0)] has geometric normal [(0,0,1)]; the ray from
    [(1/4, 1/4, -1)] along [(0,0,1)] reaches it from behind: the dot
    product of its direction with the normal is positive and the
    determinant [a] is [-1].  [intersectTriangle] registers the hit, at
    distance 1: the test of line 101 returns only when [-EPSILON < a <
    EPSILON]. *)
Theorem single_sided_back_face_hit :
  doubleSided (unitTri false) = false
  /\ (dot (direction rayFromBehind)
          (cross (vsub (v1 (unitTri false)) (v0 (unitTri false)))
                 (vsub (v2 (unitTri false)) (v0 (unitTri false))))
        >? ofZ 0)%fl = true
  /\ determinant (unitTri false) rayFromBehind = B32.of_Z (-1)
  /\ (determinant (unitTri false) rayFromBehind <? ofZ 0)%fl = true
  /\ fst (intersectTriangle (unitTri false) rayFromBehind newHitRecord)
     = true
  /\ distance (snd (intersectTriangle (unitTri false) rayFromBehind
                                      newHitRecord)) = B32.of_Z 1.
Proof. vm_compute. repeat split. Qed.

(** *** Rays parallel to the plane and the division of line 104 *)

Lemma zero_determinant_no_hit (tri : Triangle spec_float)
  (ray : Ray spec_float) (hit : HitRecord spec_float) (s : bool) :
  determinant tri ray = S754_zero s ->
  intersectTriangle tri ray hit = (false, hit).
Proof.
  intros Hz.
  destruct (intersectTriangle tri ray hit) as [[|] h] eqn:E.
  - apply intersect_true in E. destruct E as (_ & Hlo & Hhi).
    unfold hitDistance in Hlo, Hhi. rewrite Hz in Hlo, Hhi.
    set (X := dot _ _) in Hlo, Hhi.
    change (SFltb EPSILON (B32.mul (S754_infinity s) X) = true) in Hlo.
    change (SFltb (B32.mul (S754_infinity s) X) (distance hit) = true) in Hhi.
    rewrite EPSILON_binary32 in Hlo.
    generalize (infinite_distance_rejected _ (distance hit)
                  (mul_infinity s X)).
    rewrite Hlo, Hhi. discriminate.
  - apply intersect_false in E. now subst.
Qed.

Lemma cullTest_single_sided (tri : Triangle spec_float) (a : spec_float) :
  doubleSided tri = false ->
  cullTest tri a = SFltb (SFabs a) EPSILON.
Proof.
  intros Hs. unfold cullTest. rewrite Hs. cbn [negb andb].
  rewrite EPSILON_binary32. symmetry. apply SFabs_lt_iff.
Qed.

(** C3 (amended).  A single-sided triangle returns "no hit" before the
    division whenever [|a| < EPSILON], so for it [f = 1.0f / a] is never
    executed with such a denominator.  A double-sided triangle skips that
    test: the division is executed whatever [a] is.  For either kind, when
    [a] is a zero (the ray is parallel to the plane) the function returns
    [false] and leaves the record unchanged: the quotient is an infinity,
    the candidate distance an infinity or a NaN, and both fail line 118. *)
Theorem parallel_ray_handling (tri : Triangle spec_float)
  (ray : Ray spec_float) (hit : HitRecord spec_float) :
  (forall s, determinant tri ray = S754_zero s ->
             intersectTriangle tri ray hit = (false, hit))
  /\ (doubleSided tri = false ->
      (fabs (determinant tri ray) <? EPSILON)%fl = true ->
      divisionDenominator tri ray = None
      /\ intersectTriangle tri ray hit = (false, hit))
  /\ (doubleSided tri = false ->
      forall a, divisionDenominator tri ray = Some a ->
                (fabs a <? EPSILON)%fl = false)
  /\ (doubleSided tri = true ->
      divisionDenominator tri ray = Some (determinant tri ray)).
Proof.
  split; [|split; [|split]].
  - intros s. apply zero_determinant_no_hit.
  - intros Hs Hnear.
    assert (Hc : cullTest tri (determinant tri ray) = true).
    { rewrite (cullTest_single_sided _ _ Hs). exact Hnear. }
    split.
    + unfold divisionDenominator. now rewrite Hc.
    + now apply intersect_culled.
  - intros Hs a. unfold divisionDenominator.
    destruct (cullTest tri (determinant tri ray)) eqn:Hc; [discriminate|].
    intros [= <-]. rewrite (cullTest_single_sided _ _ Hs) in Hc. exact Hc.
  - intros Hd. unfold divisionDenominator, cullTest. now rewrite Hd.
Qed.

Lemma parallel_ray_handling_witness :
  intersectTriangle (unitTri true) rayInPlane newHitRecord
  = (false, newHitRecord)
  /\ divisionDenominator (unitTri false) rayInPlane = None
  /\ (fabs (B32.of_Z (-1)) <? EPSILON)%fl = false
  /\ divisionDenominator (unitTri true) rayInPlane
     = Some (determinant (unitTri true) rayInPlane).
Proof.
  split; [|split; [|split]].
  - refine (proj1 (parallel_ray_handling (unitTri true) rayInPlane
                                         newHitRecord) false _).
    vm_compute. reflexivity.
  - refine (proj1 (proj1 (proj2 (parallel_ray_handling
                                   (unitTri false) rayInPlane newHitRecord))
                     _ _)).
    + reflexivity.
    + vm_compute. reflexivity.
  - refine (proj1 (proj2 (proj2 (parallel_ray_handling
                                   (unitTri false) rayFromBehind
                                   newHitRecord)))
              _ (B32.of_Z (-1)) _).
    + reflexivity.
    + vm_compute. reflexivity.
  - refine (proj2 (proj2 (proj2 (parallel_ray_handling
                                   (unitTri true) rayInPlane newHitRecord)))
              _).
    reflexivity.
Defined.

(** C3 (as stated, refuted).  The double-sided unit triangle and a ray that
    lies in its plane: the determinant is [+0], the test of line 101 is
    skipped and line 104 divides by it.  The double-sided triangle of side
    1/1000 met at a right angle: the determinant is about [1e-6], below
    [EPSILON]; the division is executed and the hit is registered. *)
Lemma division_by_near_zero_executed :
  divisionDenominator (unitTri true) rayInPlane = Some (S754_zero false)
  /\ (fabs (S754_zero false) <? EPSILON)%fl = true
  /\ divisionDenominator smallTri rayOnSmall
     = Some (S754_finite false 8796094 (-43))
  /\ (fabs (S754_finite false 8796094 (-43)) <? EPSILON)%fl = true
  /\ fst (intersectTriangle smallTri rayOnSmall newHitRecord) = true.
Proof. vm_compute. repeat split. Qed.

(** *** The normal of a double-sided hit *)

Lemma dot_vneg (n d : Vector3 spec_float) :
  B32.same_number (dot (vneg n) d) (SFopp (dot n d)).
Proof.
  unfold dot, vneg. cbn [vx vy vz].
  change (B32.same_number
            (B32.add (B32.add (B32.mul (SFopp (vx n)) (vx d))
                              (B32.mul (SFopp (vy n)) (vy d)))
                     (B32.mul (SFopp (vz n)) (vz d)))
            (SFopp (B32.add (B32.add (B32.mul (vx n) (vx d))
                                     (B32.mul (vy n) (vy d)))
                            (B32.mul (vz n) (vz d))))).
  rewrite !mul_opp_l.
  eapply same_number_trans; [|apply add_opp].
  apply add_same_number_l, add_opp.
Qed.

Lemma flipped_normal_not_positive (n d : Vector3 spec_float) :
  (dot (if (dot n d >? ofZ 0)%fl then vneg n else n) d >? ofZ 0)%fl = false.
Proof.
  destruct (dot n d >? ofZ 0)%fl eqn:Pos; [|exact Pos].
  generalize (dot_vneg n d). generalize dependent (dot n d).
  generalize (dot (vneg n) d). intros x y Pos Same.
  change (SFltb (S754_zero false) x = false).
  change (SFltb (S754_zero false) y = true) in Pos.
  rewrite (SFltb_same_number_r _ _ _ Same).
  now apply SFltb_zero_opp.
Qed.

Lemma not_positive_not_nan (x : spec_float) :
  (x >? ofZ 0)%fl = false -> x <> S754_nan -> (x <=? ofZ 0)%fl = true.
Proof. intros Pos NaN. now apply SFleb_zero_of_not_gt. Qed.

(** C5 (amended).  On a registered hit of a double-sided triangle the
    stored normal is [normalize(cross(v1 - v0, v2 - v0))], negated exactly
    when its dot product with the ray direction is positive.  The dot
    product of the stored normal with the ray direction is never positive;
    it is [<= 0] whenever it is a number, that is, not a NaN.  The stored
    normal need not have length 1. *)
Theorem double_sided_normal (tri : Triangle spec_float)
  (ray : Ray spec_float) (hit h : HitRecord spec_float) :
  doubleSided tri = true ->
  intersectTriangle tri ray hit = (true, h) ->
  let n := normalize (cross (vsub (v1 tri) (v0 tri))
                            (vsub (v2 tri) (v0 tri))) in
  normal h = (if (dot n (direction ray) >? ofZ 0)%fl then vneg n else n)
  /\ (dot (normal h) (direction ray) >? ofZ 0)%fl = false
  /\ (dot (normal h) (direction ray) <> S754_nan ->
      (dot (normal h) (direction ray) <=? ofZ 0)%fl = true).
Proof.
  intros Hd E n. apply intersect_true in E. destruct E as (-> & _ & _).
  cbn [normal]. unfold hitNormal. rewrite Hd. cbn [andb]. fold n.
  clearbody n.
  split; [reflexivity|].
  generalize (flipped_normal_not_positive n (direction ray)).
  intros Pos. split; [exact Pos|].
  now apply not_positive_not_nan.
Qed.

Lemma double_sided_normal_witness :
  (dot (normal (snd (intersectTriangle (unitTri true) rayFromBehind
                                       newHitRecord)))
       (direction rayFromBehind) >? ofZ 0)%fl = false.
Proof.
  refine (proj1 (proj2 (double_sided_normal (unitTri true) rayFromBehind
                          newHitRecord
                          (snd (intersectTriangle (unitTri true) rayFromBehind
                                                  newHitRecord))
                          _ _))).
  - reflexivity.
  - vm_compute. reflexivity.
Defined.

(** C5 (as stated, refuted).  The double-sided triangle with edges of
    length 10^20 registers the ray [rayOnHuge]; [cross(edge1, edge2)]
    overflows to an infinity, [normalize] turns it into [(0, 0, NaN)], and
    the dot product of the stored normal with the ray direction is a NaN,
    which is not [<= 0].  The double-sided triangle of side 10^-5 registers
    the ray [rayOnTiny]; its cross product is shorter than [1e-8], so
    [normalize] returns it unchanged and the stored normal has length
    about 10^-10, not 1. *)
Lemma double_sided_normal_nan :
  doubleSided hugeTri = true
  /\ fst (intersectTriangle hugeTri rayOnHuge newHitRecord) = true
  /\ normal (snd (intersectTriangle hugeTri rayOnHuge newHitRecord))
     = mkVector3 (S754_zero false) (S754_zero false) S754_nan
  /\ (dot (normal (snd (intersectTriangle hugeTri rayOnHuge newHitRecord)))
          (direction rayOnHuge) <=? ofZ 0)%fl = false
  /\ doubleSided tinyTri = true
  /\ fst (intersectTriangle tinyTri rayOnTiny newHitRecord) = true
  /\ length (normal (snd (intersectTriangle tinyTri rayOnTiny newHitRecord)))
     = S754_finite false 14411518 (-57).
Proof. vm_compute. repeat split. Qed.

(** *** Division by a scalar, normalisation and reflection *)

Lemma to_double_abs_not_below (x : spec_float) :
  SFltb B32.dbl_1e8 (B32.to_double x) = true ->
  SFltb (B32.to_double (SFabs x)) B32.dbl_1e8 = false.
Proof.
  destruct x as [s|s| |s m e]; try destruct s; try discriminate;
    try reflexivity; cbn [B32.to_double SFabs cond_Zopp binary_normalize Z.opp].
  - intros H. exfalso. revert H.
    destruct (binary_round_sign 53 1024 true m e)
      as [-> | [-> | [-> | (m' & e' & ->)]]]; discriminate.
  - apply SFltb_asym.
Qed.

#[export] Instance binary32_threshold : ScalarThreshold spec_float.
Proof.
  constructor; simpl.
  - exact to_double_abs_not_below.
  - intros x. apply SFltb_asym.
Qed.

Lemma Rltb_true (x y : R) : Rltb x y = true -> (x < y)%R.
Proof. unfold Rltb. now destruct (Rlt_dec x y). Qed.

Lemma Rltb_intro (x y : R) : (x < y)%R -> Rltb x y = true.
Proof. unfold Rltb. now destruct (Rlt_dec x y). Qed.

Lemma Rltb_false (x y : R) : ~ (x < y)%R -> Rltb x y = false.
Proof. unfold Rltb. now destruct (Rlt_dec x y). Qed.

#[export] Instance exact_threshold : ScalarThreshold R.
Proof.
  constructor; simpl; intros x H; apply Rltb_true in H; apply Rltb_false.
  - rewrite Rabs_pos_eq; lra.
  - lra.
Qed.

Section Normalize.

Context {F : Type} {SF : Scalar F} {ST : ScalarThreshold F}.
Open Scope scalar_scope.

Lemma normalize_long (v : Vector3 F) :
  gt_1e8 (length v) = true ->
  normalize v
  = mkVector3 (vx v / length v) (vy v / length v) (vz v / length v).
Proof.
  intros H. unfold normalize, vdiv. cbv zeta.
  now rewrite H, (gt_1e8_abs _ H).
Qed.

Lemma normalize_not_long (v : Vector3 F) :
  gt_1e8 (length v) = false -> normalize v = v.
Proof. intros H. unfold normalize. cbv zeta. now rewrite H. Qed.

Lemma normalize_short (v : Vector3 F) :
  lt_1e8 (length v) = true -> normalize v = v.
Proof. intros H. apply normalize_not_long. now apply lt_1e8_gt. Qed.

End Normalize.

Lemma exact_length_normalize (v : Vector3 R) :
  gt_1e8 (length v) = true -> length (normalize v) = 1%R.
Proof.
  intros H. rewrite (normalize_long v H).
  apply Rltb_true in H.
  destruct v as [x y z]. unfold length, dot in *. cbn in *.
  assert (HS : (0 <= x * x + y * y + z * z)%R) by nra.
  apply sqrt_sqrt in HS.
  set (l := sqrt (x * x + y * y + z * z)) in *. clearbody l.
  assert (Hl : (0 < l)%R) by lra.
  replace (x / l * (x / l) + y / l * (y / l) + z / l * (z / l))%R
    with ((x * x + y * y + z * z) / (l * l))%R by (field; lra).
  rewrite <- HS. replace (l * l / (l * l))%R with 1%R by (field; lra).
  apply sqrt_1.
Qed.

(** C8 (amended).  [v / s] is [v] unchanged when [|s| < 1e-8] and the
    component-wise quotient otherwise.  [normalize(v)] is [v] unchanged
    when [length(v) < 1e-8], and more generally whenever [length(v) > 1e-8]
    fails; when [length(v) > 1e-8] it is the component-wise quotient of [v]
    by [length(v)].  In exact arithmetic that quotient has length 1; in
    binary32 its length need not be 1. *)
Theorem division_and_normalize :
  (forall (v : Vector3 spec_float) (s : spec_float),
      (lt_1e8 (fabs s) = true -> vdiv v s = v)
      /\ (lt_1e8 (fabs s) = false ->
          vdiv v s = mkVector3 (vx v / s)%fl (vy v / s)%fl (vz v / s)%fl))
  /\ (forall v : Vector3 spec_float,
         (lt_1e8 (length v) = true -> normalize v = v)
         /\ (gt_1e8 (length v) = false -> normalize v = v)
         /\ (gt_1e8 (length v) = true ->
             normalize v = vdiv v (length v)
             /\ normalize v
                = mkVector3 (vx v / length v)%fl (vy v / length v)%fl
                            (vz v / length v)%fl))
  /\ (forall v : Vector3 R,
         gt_1e8 (length v) = true -> length (normalize v) = 1%R).
Proof.
  split; [|split].
  - intros v s. unfold vdiv. split; intros ->; reflexivity.
  - intros v. split; [|split].
    + apply normalize_short.
    + apply normalize_not_long.
    + intros H. split; [|now apply normalize_long].
      unfold normalize. cbv zeta. now rewrite H.
  - exact exact_length_normalize.
Qed.

Lemma division_and_normalize_witness :
  vdiv (v3 1 2 3) (S754_zero false) = v3 1 2 3
  /\ normalize (v3 0 0 0) = v3 0 0 0
  /\ normalize (v3 0 3 4) = q3 0 3 4 5
  /\ length (normalize (r3 1 0 0)) = 1%R.
Proof.
  split; [|split; [|split]].
  - refine (proj1 (proj1 division_and_normalize (v3 1 2 3) (S754_zero false))
              _).
    vm_compute. reflexivity.
  - refine (proj1 (proj1 (proj2 division_and_normalize) (v3 0 0 0)) _).
    vm_compute. reflexivity.
  - refine (eq_trans
              (proj2 (proj2 (proj2 (proj1 (proj2 division_and_normalize)
                                      (v3 0 3 4))) _))
              _).
    + vm_compute. reflexivity.
    + vm_compute. reflexivity.
  - refine (proj2 (proj2 division_and_normalize) (r3 1 0 0) _).
    apply Rltb_intro. unfold length, dot, r3. cbn.
    replace (1 * 1 + 0 * 0 + 0 * 0)%R with 1%R by ring.
    rewrite sqrt_1. lra.
Defined.

(** C8 (as stated, refuted).  [(1, 2, 3)] is not short, and [normalize]
    returns its quotient by its length; the length of the result is
    [16777215 * 2^-24], the binary32 value just below 1.
    [(2 * 10^19, 0, 0)] is not short either: its squared length overflows,
    its length is an infinity and [normalize] returns the zero vector.
    The length of [(NaN, 0, 0)] is a NaN, which is not below [1e-8]:
    [normalize] returns the vector unchanged, not its quotient by its
    length. *)
Lemma normalize_not_unit :
  lt_1e8 (length (v3 1 2 3)) = false
  /\ normalize (v3 1 2 3) = vdiv (v3 1 2 3) (length (v3 1 2 3))
  /\ length (normalize (v3 1 2 3)) = S754_finite false 16777215 (-24)
  /\ length (normalize (v3 1 2 3)) <> ofZ 1
  /\ lt_1e8 (length (v3 (2 * 10 ^ 19) 0 0)) = false
  /\ normalize (v3 (2 * 10 ^ 19) 0 0) = v3 0 0 0
  /\ lt_1e8 (length vNaN) = false
  /\ normalize vNaN = vNaN
  /\ normalize vNaN <> vdiv vNaN (length vNaN).
Proof. vm_compute. repeat split; discriminate. Qed.

(** ** Reflection: [dot(reflect(i, n), n)] against [- dot(i, n)] *)

Import B32Class.

(** *** Exact operations of binary32 *)

Lemma round_canonical (s : bool) (m : positive) (e : Z) :
  SpecFloat.bounded B32.prec B32.emax m e = true ->
  binary_round_aux B32.prec B32.emax s (Zpos m) e loc_Exact
  = S754_finite s m e.
Proof.
  intros B. unfold SpecFloat.bounded, canonical_mantissa in B.
  apply andb_true_iff in B. destruct B as [C L]. apply Z.eqb_eq in C.
  unfold binary_round_aux, shr_fexp. cbn [Zdigits2 shr_record_of_loc].
  rewrite C, Z.sub_diag.
  cbn [shr shr_m loc_of_shr_record round_nearest_even Zdigits2
       shr_record_of_loc].
  rewrite C, Z.sub_diag. cbn [shr shr_m]. now rewrite L.
Qed.

Lemma bounded_cases (m : positive) (e : Z) :
  SpecFloat.bounded B32.prec B32.emax m e = true ->
  e <= 104
  /\ ((Zpos (digits2_pos m) = 24 /\ -149 <= e)
      \/ (Zpos (digits2_pos m) < 24 /\ e = -149)).
Proof.
  intros B. unfold SpecFloat.bounded, canonical_mantissa in B.
  apply andb_true_iff in B. destruct B as [C L].
  apply Z.eqb_eq in C. apply Z.leb_le in L.
  unfold fexp, emin, B32.prec, B32.emax in *. lia.
Qed.

Lemma bounded_intro (m : positive) (e : Z) :
  e <= 104 ->
  (Zpos (digits2_pos m) = 24 /\ -149 <= e)
  \/ (Zpos (digits2_pos m) <= 24 /\ e = -149) ->
  SpecFloat.bounded B32.prec B32.emax m e = true.
Proof.
  intros L C. unfold SpecFloat.bounded, canonical_mantissa.
  apply andb_true_iff. split; [apply Z.eqb_eq | apply Z.leb_le].
  - unfold fexp, emin, B32.prec, B32.emax. lia.
  - unfold B32.prec, B32.emax. lia.
Qed.

Lemma digits_iter_xO (k m : positive) :
  Zpos (digits2_pos (Pos.iter xO m k)) = Zpos (digits2_pos m) + Zpos k.
Proof.
  induction k as [|k IH] using Pos.peano_ind.
  - cbn [Pos.iter digits2_pos]. lia.
  - rewrite Pos.iter_succ. cbn [digits2_pos]. lia.
Qed.

Lemma iter_pos_succ (A : Type) (f : A -> A) (k : positive) (x : A) :
  SpecFloat.iter_pos f (Pos.succ k) x = f (SpecFloat.iter_pos f k x).
Proof.
  assert (C : forall k x,
            SpecFloat.iter_pos f k (f x) = f (SpecFloat.iter_pos f k x)).
  { clear. induction k as [k IH|k IH|]; intros x; cbn [SpecFloat.iter_pos].
    - now rewrite !IH.
    - now rewrite !IH.
    - reflexivity. }
  revert x. induction k as [k IH|k IH|]; intros x;
    cbn [Pos.succ SpecFloat.iter_pos].
  - rewrite !IH. now rewrite <- !C.
  - now rewrite !C.
  - reflexivity.
Qed.

Lemma shr_iter_xO (k m : positive) :
  SpecFloat.iter_pos shr_1 k
    (Build_shr_record (Zpos (Pos.iter xO m k)) false false)
  = Build_shr_record (Zpos m) false false.
Proof.
  revert m. induction k as [|k IH] using Pos.peano_ind; intros m.
  - reflexivity.
  - rewrite iter_pos_succ, Pos.iter_succ_r, IH. reflexivity.
Qed.

(** A canonical mantissa shifted left by [k] bits, at an exponent lowered
    by [k], rounds to itself. *)
Lemma round_shifted (s : bool) (k m : positive) (e : Z) :
  SpecFloat.bounded B32.prec B32.emax m e = true ->
  binary_round_aux B32.prec B32.emax s (Zpos (Pos.iter xO m k))
                   (e - Zpos k) loc_Exact
  = S754_finite s m e.
Proof.
  intros B. assert (B' := B).
  unfold SpecFloat.bounded, canonical_mantissa in B'.
  apply andb_true_iff in B'. destruct B' as [C L]. apply Z.eqb_eq in C.
  unfold binary_round_aux, shr_fexp. cbn [Zdigits2 shr_record_of_loc].
  rewrite digits_iter_xO.
  replace (Zpos (digits2_pos m) + Zpos k + (e - Zpos k))
    with (Zpos (digits2_pos m) + e) by lia.
  rewrite C. replace (e - (e - Zpos k)) with (Zpos k) by lia.
  cbn [shr]. rewrite shr_iter_xO.
  cbn [shr_m loc_of_shr_record round_nearest_even Zdigits2 shr_record_of_loc].
  replace (e - Zpos k + Zpos k) with e by lia.
  rewrite C, Z.sub_diag. cbn [shr shr_m]. now rewrite L.
Qed.

Lemma one_value : B32.of_Z 1 = S754_finite false 8388608 (-23).
Proof. reflexivity. Qed.

Lemma two_value : B32.of_Z 2 = S754_finite false 8388608 (-22).
Proof. reflexivity. Qed.

Lemma signed_one_cases (x : spec_float) :
  SFabs x = B32.of_Z 1 -> exists s, x = S754_finite s 8388608 (-23).
Proof.
  rewrite one_value. destruct x as [s|s| |s m e]; cbn; try discriminate.
  intros [= -> ->]. now exists s.
Qed.

(** Multiplying by [1.0f] or [-1.0f] is exact. *)
Lemma mul_unit_r (x : spec_float) (s1 : bool) :
  valid x = true ->
  B32.mul x (S754_finite s1 8388608 (-23)) = signed s1 x.
Proof.
  destruct x as [s|s| |s m e]; intros V.
  - destruct s, s1; reflexivity.
  - destruct s, s1; reflexivity.
  - destruct s1; reflexivity.
  - unfold B32.mul, SFmul.
    change (Zpos (m * 8388608)) with (Zpos (m * 8388608)).
    rewrite Pos.mul_comm.
    change (e + -23) with (e - 23).
    change (8388608 * m)%positive with (Pos.iter xO m 23).
    rewrite (round_shifted (xorb s s1) 23 m e V).
    destruct s, s1; reflexivity.
Qed.

Lemma mul_unit_l (x : spec_float) (s1 : bool) :
  valid x = true ->
  B32.mul (S754_finite s1 8388608 (-23)) x = signed s1 x.
Proof.
  destruct x as [s|s| |s m e]; intros V.
  - destruct s, s1; reflexivity.
  - destruct s, s1; reflexivity.
  - destruct s1; reflexivity.
  - unfold B32.mul, SFmul.
    change (8388608 * m)%positive with (Pos.iter xO m 23).
    replace (-23 + e) with (e - 23) by lia.
    rewrite (round_shifted (xorb s1 s) 23 m e V).
    destruct s, s1; reflexivity.
Qed.

(** The double of a binary32 value: the exponent goes up for a normal
    value, the mantissa is shifted for a subnormal one. *)
Lemma round_shifted_overflow (s : bool) (k m : positive) (e : Z) :
  canonical_mantissa B32.prec B32.emax m e = true ->
  binary_round_aux B32.prec B32.emax s (Zpos (Pos.iter xO m k))
                   (e - Zpos k) loc_Exact
  = if e <=? 104 then S754_finite s m e else S754_infinity s.
Proof.
  intros C. unfold canonical_mantissa in C. apply Z.eqb_eq in C.
  unfold binary_round_aux, shr_fexp. cbn [Zdigits2 shr_record_of_loc].
  rewrite digits_iter_xO.
  replace (Zpos (digits2_pos m) + Zpos k + (e - Zpos k))
    with (Zpos (digits2_pos m) + e) by lia.
  rewrite C. replace (e - (e - Zpos k)) with (Zpos k) by lia.
  cbn [shr]. rewrite shr_iter_xO.
  cbn [shr_m loc_of_shr_record round_nearest_even Zdigits2 shr_record_of_loc].
  replace (e - Zpos k + Zpos k) with e by lia.
  rewrite C, Z.sub_diag. cbn [shr shr_m]. reflexivity.
Qed.

Lemma mul_two (s : bool) (m : positive) (e : Z) :
  SpecFloat.bounded B32.prec B32.emax m e = true ->
  B32.mul (B32.of_Z 2) (S754_finite s m e)
  = if Zpos (digits2_pos m) =? 24
    then if e + 1 <=? 104 then S754_finite s m (e + 1) else S754_infinity s
    else S754_finite s (xO m) e.
Proof.
  intros B. destruct (bounded_cases m e B) as [L [[D E] | [D E]]].
  - rewrite D, Z.eqb_refl. rewrite two_value. unfold B32.mul, SFmul.
    change (8388608 * m)%positive with (Pos.iter xO m 23).
    replace (-22 + e) with (e + 1 - 23) by lia. cbn [xorb].
    apply round_shifted_overflow.
    unfold canonical_mantissa. apply Z.eqb_eq.
    unfold fexp, emin, B32.prec, B32.emax. lia.
  - replace (Zpos (digits2_pos m) =? 24) with false
      by (symmetry; apply Z.eqb_neq; lia).
    rewrite two_value. unfold B32.mul, SFmul.
    change (8388608 * m)%positive with (Pos.iter xO (xO m) 22).
    replace (-22 + e) with (e - 22) by lia. cbn [xorb].
    apply round_shifted. apply bounded_intro; [lia|].
    right. cbn [digits2_pos]. lia.
Qed.

Lemma binary_round_canonical (s : bool) (m : positive) (e : Z) :
  SpecFloat.bounded B32.prec B32.emax m e = true ->
  binary_round B32.prec B32.emax s m e = S754_finite s m e.
Proof.
  intros B. assert (B' := B).
  unfold SpecFloat.bounded, canonical_mantissa in B'.
  apply andb_true_iff in B'. destruct B' as [C _]. apply Z.eqb_eq in C.
  unfold binary_round. rewrite C. unfold shl_align. rewrite Z.sub_diag.
  now apply round_canonical.
Qed.

(** [x - 2x = -x], exactly. *)
Lemma sub_double (s : bool) (m : positive) (e : Z) :
  SpecFloat.bounded B32.prec B32.emax m e = true ->
  (B32.sub (S754_finite s m e)
           (if Zpos (digits2_pos m) =? 24 then S754_finite s m (e + 1)
            else S754_finite s (xO m) e)
   = S754_finite (negb s) m e).
Proof.
  intros B. destruct (bounded_cases m e B) as [L [[D E] | [D E]]].
  - rewrite D, Z.eqb_refl. unfold B32.sub, SFsub.
    replace (Z.min e (e + 1)) with e by lia.
    unfold shl_align. rewrite Z.sub_diag.
    replace (e - (e + 1)) with (Zneg 1) by lia.
    cbn [fst Pos.iter].
    replace (cond_Zopp s (Zpos m) - cond_Zopp s (Zpos (xO m)))
      with (cond_Zopp (negb s) (Zpos m))
      by (destruct s; cbn [cond_Zopp negb]; lia).
    destruct s; cbn [cond_Zopp negb Z.opp binary_normalize];
      now apply binary_round_canonical.
  - replace (Zpos (digits2_pos m) =? 24) with false
      by (symmetry; apply Z.eqb_neq; lia).
    unfold B32.sub, SFsub.
    rewrite Z.min_id. unfold shl_align. rewrite Z.sub_diag.
    cbn [fst].
    replace (cond_Zopp s (Zpos m) - cond_Zopp s (Zpos (xO m)))
      with (cond_Zopp (negb s) (Zpos m))
      by (destruct s; cbn [cond_Zopp negb]; lia).
    destruct s; cbn [cond_Zopp negb Z.opp binary_normalize];
      now apply binary_round_canonical.
Qed.

(** *** Sums and products with zeros *)

Lemma add_zero_r (x z : spec_float) :
  nonzero_finite x = true -> B32.is_zero z = true -> B32.add x z = x.
Proof. destruct x, z; try discriminate; reflexivity. Qed.

Lemma add_zero_l (z x : spec_float) :
  B32.is_zero z = true -> nonzero_finite x = true -> B32.add z x = x.
Proof. destruct x, z; try discriminate; reflexivity. Qed.

Lemma add_zeros (z z' : spec_float) :
  B32.is_zero z = true -> B32.is_zero z' = true ->
  B32.is_zero (B32.add z z') = true.
Proof.
  destruct z as [s| | |], z' as [s'| | |]; try discriminate.
  destruct s, s'; reflexivity.
Qed.

Lemma sub_zeros (z z' : spec_float) :
  B32.is_zero z = true -> B32.is_zero z' = true ->
  B32.is_zero (B32.sub z z') = true.
Proof.
  destruct z as [s| | |], z' as [s'| | |]; try discriminate.
  destruct s, s'; reflexivity.
Qed.

Lemma mul_zero_r (b z : spec_float) :
  is_finite b = true -> B32.is_zero z = true ->
  B32.is_zero (B32.mul b z) = true.
Proof. destruct b, z; try discriminate; reflexivity. Qed.

Lemma mul_zero_l (z b : spec_float) :
  B32.is_zero z = true -> is_finite b = true ->
  B32.is_zero (B32.mul z b) = true.
Proof. destruct b, z; try discriminate; reflexivity. Qed.

Lemma sub_zero_finite (b z : spec_float) :
  is_finite b = true -> B32.is_zero z = true ->
  is_finite (B32.sub b z) = true.
Proof.
  destruct b as [s| | |], z as [s'| | |]; try discriminate; try reflexivity.
  destruct s, s'; reflexivity.
Qed.

Lemma add_finite_inv (x y : spec_float) :
  is_finite (B32.add x y) = true ->
  is_finite x = true /\ is_finite y = true.
Proof.
  destruct x as [s|s| |s m e], y as [s'|s'| |s' m' e'];
    try (split; reflexivity); try discriminate;
    destruct s, s'; discriminate.
Qed.

Lemma mul_zero_finite_inv (b z : spec_float) :
  B32.is_zero z = true -> is_finite (B32.mul b z) = true ->
  is_finite b = true.
Proof. destruct b, z; try discriminate; reflexivity. Qed.

Lemma mul_two_finite_inv (d : spec_float) :
  is_finite (B32.mul (B32.of_Z 2) d) = true -> is_finite d = true.
Proof. destruct d; try discriminate; reflexivity. Qed.

Lemma zero_finite (z : spec_float) :
  B32.is_zero z = true -> is_finite z = true.
Proof. destruct z; try discriminate; reflexivity. Qed.

Lemma finite_cases (x : spec_float) :
  is_finite x = true -> B32.is_zero x = true \/ nonzero_finite x = true.
Proof. destruct x; try discriminate; auto. Qed.

(** *** Signs *)

Lemma signed_finite (s : bool) (x : spec_float) :
  is_finite (signed s x) = is_finite x.
Proof. destruct s, x; reflexivity. Qed.

Lemma signed_zero (s : bool) (x : spec_float) :
  B32.is_zero (signed s x) = B32.is_zero x.
Proof. destruct s, x; reflexivity. Qed.

Lemma signed_nonzero (s : bool) (x : spec_float) :
  nonzero_finite (signed s x) = nonzero_finite x.
Proof. destruct s, x; reflexivity. Qed.

Lemma signed_valid (s : bool) (x : spec_float) :
  valid (signed s x) = valid x.
Proof. destruct s, x; reflexivity. Qed.

Lemma signed_signed (s : bool) (x : spec_float) :
  nonzero_finite x = true -> signed s (signed s x) = x.
Proof.
  destruct s, x as [| | |s' m e]; try discriminate; try reflexivity.
  intros _. cbn. now rewrite negb_involutive.
Qed.

Lemma signed_opp (s : bool) (x : spec_float) :
  signed s (SFopp x) = SFopp (signed s x).
Proof. destruct s; reflexivity. Qed.

Lemma doubled_signed (s : bool) (x : spec_float) :
  doubled (signed s x) = signed s (doubled x).
Proof.
  destruct s; [|reflexivity].
  destruct x as [| | |s' m e]; try reflexivity.
  cbn [signed doubled SFopp].
  destruct (Zpos (digits2_pos m) =? 24); reflexivity.
Qed.

(** *** Doubling *)

Lemma mul_two_doubled (x : spec_float) :
  valid x = true -> nonzero_finite x = true ->
  is_finite (B32.mul (B32.of_Z 2) x) = true ->
  B32.mul (B32.of_Z 2) x = doubled x
  /\ valid (doubled x) = true /\ nonzero_finite (doubled x) = true.
Proof.
  destruct x as [| | |s m e]; try discriminate. intros V _ H.
  change (SpecFloat.bounded B32.prec B32.emax m e = true) in V.
  rewrite (mul_two s m e V) in *. cbn [doubled].
  destruct (bounded_cases m e V) as [L [[D E] | [D E]]].
  - rewrite D, Z.eqb_refl in *.
    destruct (e + 1 <=? 104) eqn:O; [|discriminate H].
    split; [reflexivity|]. split; [|reflexivity].
    apply bounded_intro; [now apply Z.leb_le|]. left. lia.
  - replace (Zpos (digits2_pos m) =? 24) with false in *
      by (symmetry; apply Z.eqb_neq; lia).
    split; [reflexivity|]. split; [|reflexivity].
    apply bounded_intro; [lia|]. right. cbn [digits2_pos]. lia.
Qed.

Lemma sub_doubled (x : spec_float) :
  valid x = true -> nonzero_finite x = true ->
  B32.sub x (doubled x) = SFopp x.
Proof.
  destruct x as [| | |s m e]; try discriminate. intros V _.
  change (SpecFloat.bounded B32.prec B32.emax m e = true) in V.
  cbn [doubled SFopp]. rewrite <- (sub_double s m e V).
  destruct (Zpos (digits2_pos m) =? 24); reflexivity.
Qed.

Lemma doubled_nonzero (x : spec_float) :
  nonzero_finite (doubled x) = nonzero_finite x.
Proof.
  destruct x as [| | |s m e]; try reflexivity. cbn [doubled].
  destruct (Zpos (digits2_pos m) =? 24); reflexivity.
Qed.

(** *** Reflection about a coordinate axis *)

Section AxisReflection.

Variables (s1 : bool) (A d : spec_float).

Let U : spec_float := S754_finite s1 8388608 (-23).

Hypothesis valid_A : valid A = true.
Hypothesis finite_twice : is_finite (B32.mul (B32.of_Z 2) d) = true.

Lemma reflect_along (N : nonzero_finite A = true) (D : d = signed s1 A) :
  B32.sub A (B32.mul U (B32.mul (B32.of_Z 2) d)) = SFopp A.
Proof.
  assert (Vd : valid d = true) by (now rewrite D, signed_valid).
  assert (Nd : nonzero_finite d = true) by (now rewrite D, signed_nonzero).
  destruct (mul_two_doubled d Vd Nd finite_twice) as (-> & V2 & N2).
  unfold U. rewrite (mul_unit_l _ s1 V2), D, doubled_signed.
  rewrite signed_signed by (now rewrite doubled_nonzero).
  now apply sub_doubled.
Qed.

Lemma reflect_along_zero :
  B32.is_zero A = true -> B32.is_zero d = true ->
  B32.is_zero (B32.sub A (B32.mul U (B32.mul (B32.of_Z 2) d))) = true.
Proof.
  intros ZA Zd. apply sub_zeros; [exact ZA|].
  apply mul_zero_r; [reflexivity|]. now apply mul_zero_r.
Qed.

Lemma reflect_across (b z : spec_float) :
  is_finite b = true -> B32.is_zero z = true ->
  is_finite (B32.sub b (B32.mul z (B32.mul (B32.of_Z 2) d))) = true.
Proof.
  intros Fb Zz. apply sub_zero_finite; [exact Fb|].
  now apply mul_zero_l.
Qed.

End AxisReflection.

Lemma dot_axis_x (s1 : bool) (a b c z1 z2 : spec_float) :
  valid a = true -> is_finite b = true -> is_finite c = true ->
  B32.is_zero z1 = true -> B32.is_zero z2 = true ->
  let d := dot (mkVector3 a b c)
               (mkVector3 (S754_finite s1 8388608 (-23)) z1 z2) in
  (nonzero_finite a = true -> d = signed s1 a)
  /\ (B32.is_zero a = true -> B32.is_zero d = true).
Proof.
  intros V Fb Fc Z1 Z2. unfold dot.
  cbn [vx vy vz fmul fadd binary32]. rewrite (mul_unit_r a s1 V).
  split; intros N.
  - assert (Ns : nonzero_finite (signed s1 a) = true)
      by (now rewrite signed_nonzero).
    rewrite (add_zero_r _ (B32.mul b z1)) by auto using mul_zero_r.
    now rewrite add_zero_r by auto using mul_zero_r.
  - repeat apply add_zeros; auto using mul_zero_r.
    now rewrite signed_zero.
Qed.

Lemma dot_axis_y (s1 : bool) (a b c z1 z2 : spec_float) :
  valid b = true -> is_finite a = true -> is_finite c = true ->
  B32.is_zero z1 = true -> B32.is_zero z2 = true ->
  let d := dot (mkVector3 a b c)
               (mkVector3 z1 (S754_finite s1 8388608 (-23)) z2) in
  (nonzero_finite b = true -> d = signed s1 b)
  /\ (B32.is_zero b = true -> B32.is_zero d = true).
Proof.
  intros V Fa Fc Z1 Z2. unfold dot.
  cbn [vx vy vz fmul fadd binary32]. rewrite (mul_unit_r b s1 V).
  split; intros N.
  - assert (Ns : nonzero_finite (signed s1 b) = true)
      by (now rewrite signed_nonzero).
    rewrite (add_zero_l (B32.mul a z1)) by auto using mul_zero_r.
    now rewrite add_zero_r by auto using mul_zero_r.
  - repeat apply add_zeros; auto using mul_zero_r.
    now rewrite signed_zero.
Qed.

Lemma dot_axis_z (s1 : bool) (a b c z1 z2 : spec_float) :
  valid c = true -> is_finite a = true -> is_finite b = true ->
  B32.is_zero z1 = true -> B32.is_zero z2 = true ->
  let d := dot (mkVector3 a b c)
               (mkVector3 z1 z2 (S754_finite s1 8388608 (-23))) in
  (nonzero_finite c = true -> d = signed s1 c)
  /\ (B32.is_zero c = true -> B32.is_zero d = true).
Proof.
  intros V Fa Fb Z1 Z2. unfold dot.
  cbn [vx vy vz fmul fadd binary32]. rewrite (mul_unit_r c s1 V).
  split; intros N.
  - assert (Ns : nonzero_finite (signed s1 c) = true)
      by (now rewrite signed_nonzero).
    now rewrite add_zero_l by auto using mul_zero_r, add_zeros.
  - repeat apply add_zeros; auto using mul_zero_r.
    now rewrite signed_zero.
Qed.

(** When twice the dot product is finite, so are the three components of
    the incident vector. *)
Lemma dot_axis_finite (i n : Vector3 spec_float) :
  validVec i = true -> axisNormal n ->
  is_finite (B32.mul (B32.of_Z 2) (dot i n)) = true ->
  is_finite (vx i) = true /\ is_finite (vy i) = true
  /\ is_finite (vz i) = true.
Proof.
  intros V Ax H. apply mul_two_finite_inv in H.
  destruct i as [a b c], n as [x y z]. unfold dot in H.
  unfold axisNormal in Ax.
  cbn [vx vy vz fmul fadd binary32] in *.
  unfold validVec in V. cbn [vx vy vz] in V.
  apply andb_true_iff in V. destruct V as [V Vc].
  apply andb_true_iff in V. destruct V as [Va Vb].
  apply add_finite_inv in H. destruct H as [H Hc].
  apply add_finite_inv in H. destruct H as [Ha Hb].
  destruct Ax as [(Ux & Zy & Zz) | [(Zx & Uy & Zz) | (Zx & Zy & Uz)]].
  - apply signed_one_cases in Ux. destruct Ux as [s ->].
    rewrite (mul_unit_r a s Va), signed_finite in Ha.
    eauto using mul_zero_finite_inv.
  - apply signed_one_cases in Uy. destruct Uy as [s ->].
    rewrite (mul_unit_r b s Vb), signed_finite in Hb.
    eauto using mul_zero_finite_inv.
  - apply signed_one_cases in Uz. destruct Uz as [s ->].
    rewrite (mul_unit_r c s Vc), signed_finite in Hc.
    eauto using mul_zero_finite_inv.
Qed.

Lemma length_axis (n : Vector3 spec_float) :
  axisNormal n -> length n = B32.of_Z 1.
Proof.
  destruct n as [x y z]. unfold axisNormal. cbn [vx vy vz].
  intros [(U & Z1 & Z2) | [(Z1 & U & Z2) | (Z1 & Z2 & U)]];
    apply signed_one_cases in U; destruct U as [s ->];
    destruct s;
    repeat match goal with
           | H : B32.is_zero ?v = true |- _ =>
             destruct v as [[|]| | |]; try discriminate H; clear H
           end; reflexivity.
Qed.

Lemma opp_valid (x : spec_float) : valid (SFopp x) = valid x.
Proof. destruct x; reflexivity. Qed.

Lemma opp_nonzero (x : spec_float) :
  nonzero_finite (SFopp x) = nonzero_finite x.
Proof. destruct x; reflexivity. Qed.

Lemma opp_zero (x : spec_float) : B32.is_zero (SFopp x) = B32.is_zero x.
Proof. destruct x; reflexivity. Qed.

Lemma reflect_dot_axis (i n : Vector3 spec_float) :
  validVec i = true -> axisNormal n ->
  is_finite (B32.mul (B32.of_Z 2) (dot i n)) = true ->
  B32.same_number (dot (reflect i n) n) (SFopp (dot i n))
  /\ (B32.is_zero (dot i n) = false ->
      dot (reflect i n) n = SFopp (dot i n)).
Proof.
  intros V Ax H.
  destruct (dot_axis_finite i n V Ax H) as (Fa & Fb & Fc).
  destruct i as [a b c], n as [x y z].
  unfold validVec in V. unfold axisNormal in Ax. cbn [vx vy vz] in *.
  apply andb_true_iff in V. destruct V as [V Vc].
  apply andb_true_iff in V. destruct V as [Va Vb].
  unfold reflect, vsub, vscale.
  cbn [vx vy vz fmul fadd fsub ofZ binary32].
  destruct Ax as [(Ux & Zy & Zz) | [(Zx & Uy & Zz) | (Zx & Zy & Uz)]].
  - apply signed_one_cases in Ux. destruct Ux as [s Ex].
    subst x. set (d := dot (mkVector3 a b c) _) in *.
    destruct (dot_axis_x s a b c y z Va Fb Fc Zy Zz) as [Dn Dz].
    fold d in Dn, Dz.
    assert (Rb := reflect_across d H b y Fb Zy).
    assert (Rc := reflect_across d H c z Fc Zz).
    destruct (finite_cases a Fa) as [Za | Na].
    + assert (Ra := reflect_along_zero s a d Za (Dz Za)).
      set (ra := B32.sub a _) in *.
      destruct (dot_axis_x s ra _ _ y z
                  ltac:(now destruct ra) Rb Rc Zy Zz) as [_ Dz'].
      split.
      * right. split; [now apply Dz'|]. rewrite opp_zero. now apply Dz.
      * intros Nz. rewrite (Dz Za) in Nz. discriminate Nz.
    + rewrite (reflect_along s a d Va H Na (Dn Na)).
      destruct (dot_axis_x s (SFopp a) _ _ y z
                  ltac:(now rewrite opp_valid) Rb Rc Zy Zz) as [Dn' _].
      rewrite Dn' by (now rewrite opp_nonzero).
      rewrite (Dn Na), signed_opp. split; [left|]; reflexivity.
  - apply signed_one_cases in Uy. destruct Uy as [s Ey].
    subst y. set (d := dot (mkVector3 a b c) _) in *.
    destruct (dot_axis_y s a b c x z Vb Fa Fc Zx Zz) as [Dn Dz].
    fold d in Dn, Dz.
    assert (Ra := reflect_across d H a x Fa Zx).
    assert (Rc := reflect_across d H c z Fc Zz).
    destruct (finite_cases b Fb) as [Zb | Nb].
    + assert (Rb := reflect_along_zero s b d Zb (Dz Zb)).
      set (rb := B32.sub b _) in *.
      destruct (dot_axis_y s _ rb _ x z
                  ltac:(now destruct rb) Ra Rc Zx Zz) as [_ Dz'].
      split.
      * right. split; [now apply Dz'|]. rewrite opp_zero. now apply Dz.
      * intros Nz. rewrite (Dz Zb) in Nz. discriminate Nz.
    + rewrite (reflect_along s b d Vb H Nb (Dn Nb)).
      destruct (dot_axis_y s _ (SFopp b) _ x z
                  ltac:(now rewrite opp_valid) Ra Rc Zx Zz) as [Dn' _].
      rewrite Dn' by (now rewrite opp_nonzero).
      rewrite (Dn Nb), signed_opp. split; [left|]; reflexivity.
  - apply signed_one_cases in Uz. destruct Uz as [s Ez].
    subst z. set (d := dot (mkVector3 a b c) _) in *.
    destruct (dot_axis_z s a b c x y Vc Fa Fb Zx Zy) as [Dn Dz].
    fold d in Dn, Dz.
    assert (Ra := reflect_across d H a x Fa Zx).
    assert (Rb := reflect_across d H b y Fb Zy).
    destruct (finite_cases c Fc) as [Zc | Nc].
    + assert (Rc := reflect_along_zero s c d Zc (Dz Zc)).
      set (rc := B32.sub c _) in *.
      destruct (dot_axis_z s _ _ rc x y
                  ltac:(now destruct rc) Ra Rb Zx Zy) as [_ Dz'].
      split.
      * right. split; [now apply Dz'|]. rewrite opp_zero. now apply Dz.
      * intros Nz. rewrite (Dz Zc) in Nz. discriminate Nz.
    + rewrite (reflect_along s c d Vc H Nc (Dn Nc)).
      destruct (dot_axis_z s _ _ (SFopp c) x y
                  ltac:(now rewrite opp_valid) Ra Rb Zx Zy) as [Dn' _].
      rewrite Dn' by (now rewrite opp_nonzero).
      rewrite (Dn Nc), signed_opp. split; [left|]; reflexivity.
Qed.

(** Over the real numbers the identity holds for every normal of length 1. *)
Lemma reflect_dot_reals (i n : Vector3 R) :
  length n = 1%R -> dot (reflect i n) n = (- dot i n)%R.
Proof.
  intros H. change (sqrt (dot n n) = 1%R) in H.
  assert (Hn : dot n n = 1%R).
  { rewrite <- (sqrt_sqrt (dot n n)).
    - rewrite H. ring.
    - destruct n as [x y z]. unfold dot. cbn. nra. }
  destruct i as [a b c], n as [x y z]. unfold reflect, dot in *. cbn in *.
  replace ((a - x * (2 * (a * x + b * y + c * z))) * x
           + (b - y * (2 * (a * x + b * y + c * z))) * y
           + (c - z * (2 * (a * x + b * y + c * z))) * z)%R
    with ((a * x + b * y + c * z)
          * (1 - 2 * (x * x + y * y + z * z)))%R by ring.
  rewrite Hn. ring.
Qed.

(** C9 (amended).  In exact arithmetic, for every incident vector [i] and
    every normal [n] of length 1, [dot(reflect(i, n), n) = - dot(i, n)].
    In binary32, when [n] is a coordinate axis or its opposite (its
    computed length is then exactly [1.0f]) and the intermediate
    [2 * dot(i, n)] of line 61 is finite, the two sides are the same
    float, up to the sign of a zero: every operation of the computation is
    then exact. *)
Theorem reflect_dot_law :
  (forall i n : Vector3 R,
      length n = 1%R -> dot (reflect i n) n = (- dot i n)%R)
  /\ (forall i n : Vector3 spec_float,
         validVec i = true -> axisNormal n ->
         is_finite (ofZ 2 * dot i n)%fl = true ->
         length n = ofZ 1
         /\ B32.same_number (dot (reflect i n) n) (- dot i n)%fl
         /\ (B32.is_zero (dot i n) = false ->
             dot (reflect i n) n = (- dot i n)%fl)).
Proof.
  split.
  - exact reflect_dot_reals.
  - intros i n V Ax H. split; [now apply length_axis|].
    now apply reflect_dot_axis.
Qed.

Lemma reflect_dot_law_witness :
  dot (reflect (r3 1 2 3) (r3 0 1 0)) (r3 0 1 0)
  = (- dot (r3 1 2 3) (r3 0 1 0))%R
  /\ dot (reflect (v3 3 (-4) 5) (v3 0 1 0)) (v3 0 1 0)
     = (- dot (v3 3 (-4) 5) (v3 0 1 0))%fl.
Proof.
  split.
  - apply (proj1 reflect_dot_law (r3 1 2 3) (r3 0 1 0)).
    unfold length, dot, r3. cbn.
    replace (0 * 0 + 1 * 1 + 0 * 0)%R with 1%R by ring.
    apply sqrt_1.
  - refine (proj2 (proj2 (proj2 reflect_dot_law (v3 3 (-4) 5) (v3 0 1 0)
                            _ _ _)) _).
    + vm_compute. reflexivity.
    + right. left. repeat split; reflexivity.
    + vm_compute. reflexivity.
    + vm_compute. reflexivity.
Defined.

(** C9 (as stated, refuted).  The incident vector [(3e38, 0, 0)] is finite
    and the normal [(1, 0, 0)] has length exactly [1.0f]; [dot(i, n)] is
    [3e38], but [2 * dot(i, n)] overflows to an infinity, [reflect] yields
    [(-inf, NaN, NaN)] and [dot(reflect(i, n), n)] is a NaN, which no
    tolerance brings to [-3e38].  The same happens about the normal
    [(0.6f, 0.8f, 0)], whose computed length is also exactly [1.0f]. *)
Lemma reflect_dot_overflow :
  validVec (v3 (3 * 10 ^ 38) 0 0) = true
  /\ axisNormal (v3 1 0 0)
  /\ length (v3 1 0 0) = ofZ 1
  /\ dot (v3 (3 * 10 ^ 38) 0 0) (v3 1 0 0) = ofZ (3 * 10 ^ 38)
  /\ is_finite (ofZ (3 * 10 ^ 38)) = true
  /\ (ofZ 2 * dot (v3 (3 * 10 ^ 38) 0 0) (v3 1 0 0))%fl
     = S754_infinity false
  /\ reflect (v3 (3 * 10 ^ 38) 0 0) (v3 1 0 0)
     = mkVector3 (S754_infinity true) S754_nan S754_nan
  /\ dot (reflect (v3 (3 * 10 ^ 38) 0 0) (v3 1 0 0)) (v3 1 0 0) = S754_nan
  /\ length n345 = ofZ 1
  /\ is_finite (dot (v3 (3 * 10 ^ 38) 0 0) n345) = true
  /\ dot (reflect (v3 (3 * 10 ^ 38) 0 0) n345) n345 = S754_nan.
Proof.
  split; [vm_compute; reflexivity|].
  split; [left; repeat split; reflexivity|].
  vm_compute. repeat split.
Qed.

(** Off the axes the two sides can differ in the last place: the normal
    [(0.6f, 0.8f, 0)] has computed length exactly [1.0f], and for the
    incident vector [(1, 0, 0)] they are one unit in the last place
    apart. *)
Lemma reflect_dot_rounding :
  length n345 = ofZ 1
  /\ dot (reflect (v3 1 0 0) n345) n345 = S754_finite true 10066331 (-24)
  /\ (- dot (v3 1 0 0) n345)%fl = S754_finite true 10066330 (-24)
  /\ dot (reflect (v3 1 0 0) n345) n345 <> (- dot (v3 1 0 0) n345)%fl.
Proof. vm_compute. repeat split. discriminate. Qed.

(** * Further properties of the program *)

Import B32Sign Obj Camera.

(** ** The tests an accepted intersection has passed *)

Section IntersectMore.
Context {F : Type} {SF : Scalar F}.
Open Scope scalar_scope.

Lemma intersect_true_tests (tri : Triangle F) (ray : Ray F) (hit h : HitRecord F) :
  intersectTriangle tri ray hit = (true, h) ->
  cullTest tri (determinant tri ray) = false
  /\ (hitU tri ray <? ofZ 0) = false /\ (hitU tri ray >? ofZ 1) = false
  /\ (hitV tri ray <? ofZ 0) = false
  /\ (hitU tri ray + hitV tri ray >? ofZ 1) = false.
Proof.
  unfold intersectTriangle, hitU, hitV.
  destruct (cullTest _ _); [discriminate|].
  match goal with |- context [if ?c then _ else _] => destruct c eqn:Hu end;
    [discriminate|].
  match goal with |- context [if ?c then _ else _] => destruct c eqn:Hv end;
    [discriminate|].
  apply orb_false_elim in Hu, Hv. intros _. tauto.
Qed.

Lemma intersect_accept (tri : Triangle F) (ray : Ray F) (hit : HitRecord F) :
  cullTest tri (determinant tri ray) = false ->
  (hitU tri ray <? ofZ 0) = false -> (hitU tri ray >? ofZ 1) = false ->
  (hitV tri ray <? ofZ 0) = false ->
  (hitU tri ray + hitV tri ray >? ofZ 1) = false ->
  (hitDistance tri ray >? EPSILON) = true ->
  (hitDistance tri ray <? distance hit) = true ->
  intersectTriangle tri ray hit
  = (true, mkHitRecord (pointAt ray (hitDistance tri ray)) (hitNormal tri ray)
                       (hitDistance tri ray) (Some tri)).
Proof.
  unfold intersectTriangle, hitU, hitV, hitDistance, hitNormal.
  intros -> -> -> -> -> -> ->. reflexivity.
Qed.

End IntersectMore.

(** *** Signs and symmetries of the binary32 vector algebra *)

Lemma binary_round_aux_sign_clear prec emax m e l :
  sign_clear (binary_round_aux prec emax false m e l) = true.
Proof.
  destruct (binary_round_aux_sign prec emax false m e l)
    as [-> | [-> | [-> | (m' & e' & ->)]]]; reflexivity.
Qed.

Lemma binary_round_sign_clear prec emax m e :
  sign_clear (binary_round prec emax false m e) = true.
Proof.
  destruct (binary_round_sign prec emax false m e)
    as [-> | [-> | [-> | (m' & e' & ->)]]]; reflexivity.
Qed.

Lemma mul_self_sign_clear x : sign_clear (B32.mul x x) = true.
Proof.
  destruct x as [s|s| |s m e]; try reflexivity;
    try (destruct s; reflexivity).
  unfold B32.mul, SFmul. rewrite xorb_nilpotent.
  apply binary_round_aux_sign_clear.
Qed.

Lemma add_sign_clear x y :
  sign_clear x = true -> sign_clear y = true ->
  sign_clear (B32.add x y) = true.
Proof.
  destruct x as [sx|sx| |sx mx ex], y as [sy|sy| |sy my ey];
    try destruct sx; try destruct sy; try discriminate; try reflexivity.
  intros _ _. unfold B32.add, SFadd. cbn [cond_Zopp Z.add binary_normalize].
  apply binary_round_sign_clear.
Qed.

Lemma sqrt_sign_clear x :
  sign_clear x = true -> sign_clear (B32.sqrt x) = true.
Proof.
  destruct x as [s|s| |s m e]; try destruct s; try discriminate;
    try reflexivity.
  intros _. unfold B32.sqrt, SFsqrt.
  destruct (SFsqrt_core_binary _ _ _ _) as [[mz ez] lz].
  apply binary_round_aux_sign_clear.
Qed.

Lemma sign_clear_not_negative x :
  sign_clear x = true -> SFltb x (S754_zero false) = false.
Proof.
  destruct x as [s|s| |s m e]; try destruct s; try discriminate; reflexivity.
Qed.

Lemma dot_self_sign_clear (v : Vector3 spec_float) :
  sign_clear (dot v v) = true.
Proof.
  unfold dot.
  change (sign_clear (B32.add (B32.add (B32.mul (vx v) (vx v))
                                       (B32.mul (vy v) (vy v)))
                              (B32.mul (vz v) (vz v))) = true).
  repeat apply add_sign_clear; apply mul_self_sign_clear.
Qed.

(** X5.  In binary32, [dot(v, v)] and [length(v)] are never negative, and
    [length(v)] is never the negative zero: each is a NaN or has a clear
    sign bit. *)
Theorem length_never_negative (v : Vector3 spec_float) :
  (dot v v <? ofZ 0)%fl = false
  /\ (length v <? ofZ 0)%fl = false
  /\ length v <> S754_zero true.
Proof.
  assert (D := dot_self_sign_clear v).
  assert (L : sign_clear (length v) = true).
  { unfold length. now apply sqrt_sign_clear. }
  split; [|split].
  - now apply sign_clear_not_negative.
  - now apply sign_clear_not_negative.
  - intros E. rewrite E in L. discriminate.
Qed.

Lemma mul_comm x y : B32.mul x y = B32.mul y x.
Proof.
  destruct x as [sx|sx| |sx mx ex], y as [sy|sy| |sy my ey];
    try reflexivity; unfold B32.mul, SFmul;
    rewrite (xorb_comm sx sy); try reflexivity.
  now rewrite Pos.mul_comm, Z.add_comm.
Qed.

Lemma mul_opp_opp x y : B32.mul (SFopp x) (SFopp y) = B32.mul x y.
Proof.
  rewrite mul_opp_l, (mul_comm x), mul_opp_l, (mul_comm y).
  now destruct (B32.mul x y) as [[]|[]| |[] ? ?].
Qed.

Lemma div_opp_l x y : B32.div (SFopp x) y = SFopp (B32.div x y).
Proof.
  destruct x as [sx|sx| |sx mx ex], y as [sy|sy| |sy my ey];
    try reflexivity; try (now destruct sx, sy).
  unfold B32.div, SFdiv, SFopp at 1.
  destruct (SFdiv_core_binary _ _ _ _ _ _) as [[mz ez] lz].
  rewrite <- binary_round_aux_opp. now destruct sx, sy.
Qed.

(** X6.  In binary32 [dot(a, b)] and [dot(b, a)] are the same value: the
    same finite number, the same zero or the same infinity, or both a NaN.
    (The sign and the payload of a NaN are not part of [spec_float], which
    has a single NaN.) *)
Theorem dot_commutative (a b : Vector3 spec_float) : dot a b = dot b a.
Proof.
  unfold dot.
  change (B32.add (B32.add (B32.mul (vx a) (vx b)) (B32.mul (vy a) (vy b)))
                  (B32.mul (vz a) (vz b))
          = B32.add (B32.add (B32.mul (vx b) (vx a)) (B32.mul (vy b) (vy a)))
                    (B32.mul (vz b) (vz a))).
  now rewrite (mul_comm (vx a)), (mul_comm (vy a)), (mul_comm (vz a)).
Qed.

Lemma length_vneg (v : Vector3 spec_float) : length (vneg v) = length v.
Proof.
  unfold length, dot, vneg. cbn [vx vy vz].
  change (B32.sqrt (B32.add (B32.add (B32.mul (SFopp (vx v)) (SFopp (vx v)))
                                     (B32.mul (SFopp (vy v)) (SFopp (vy v))))
                            (B32.mul (SFopp (vz v)) (SFopp (vz v))))
          = B32.sqrt (B32.add (B32.add (B32.mul (vx v) (vx v))
                                       (B32.mul (vy v) (vy v)))
                              (B32.mul (vz v) (vz v)))).
  now rewrite !mul_opp_opp.
Qed.

(** X7.  In binary32, negating a vector keeps its length, and each
    component of [normalize(-v)] is the opposite of the component of
    [normalize(v)]: the same magnitude with the opposite sign, or a NaN on
    both sides.  (The sign and the payload of a NaN are not part of
    [spec_float], which has a single NaN.) *)
Theorem normalize_vneg (v : Vector3 spec_float) :
  length (vneg v) = length v
  /\ normalize (vneg v) = vneg (normalize v).
Proof.
  split; [apply length_vneg|].
  unfold normalize. cbv zeta. rewrite length_vneg.
  destruct (gt_1e8 (length v)); [|reflexivity].
  unfold vdiv. destruct (lt_1e8 (fabs (length v))); [reflexivity|].
  unfold vneg. cbn [vx vy vz].
  change (mkVector3 (B32.div (SFopp (vx v)) (length v))
                    (B32.div (SFopp (vy v)) (length v))
                    (B32.div (SFopp (vz v)) (length v))
          = mkVector3 (SFopp (B32.div (vx v) (length v)))
                      (SFopp (B32.div (vy v) (length v)))
                      (SFopp (B32.div (vz v) (length v)))).
  now rewrite !div_opp_l.
Qed.

(** *** What the mirror does about a coordinate axis *)

Lemma sub_zero_same (b z : spec_float) :
  is_finite b = true -> B32.is_zero z = true ->
  B32.same_number (B32.sub b z) b.
Proof.
  destruct b as [s| | |s m e], z as [s'| | |]; try discriminate; intros _ _.
  - right. destruct s, s'; split; reflexivity.
  - left. reflexivity.
Qed.

Lemma reflect_across_same (d b z : spec_float) :
  is_finite (B32.mul (B32.of_Z 2) d) = true ->
  is_finite b = true -> B32.is_zero z = true ->
  B32.same_number (B32.sub b (B32.mul z (B32.mul (B32.of_Z 2) d)))
                  (if B32.is_zero z then b else SFopp b).
Proof.
  intros H Fb Zz. rewrite Zz. apply sub_zero_same; [exact Fb|].
  now apply mul_zero_l.
Qed.

Lemma reflect_along_same (s : bool) (a d : spec_float) :
  valid a = true -> is_finite a = true ->
  is_finite (B32.mul (B32.of_Z 2) d) = true ->
  (nonzero_finite a = true -> d = signed s a) ->
  (B32.is_zero a = true -> B32.is_zero d = true) ->
  B32.same_number
    (B32.sub a (B32.mul (S754_finite s 8388608 (-23))
                        (B32.mul (B32.of_Z 2) d)))
    (if B32.is_zero (S754_finite s 8388608 (-23)) then a else SFopp a).
Proof.
  intros V Fa H Dn Dz. cbn [B32.is_zero].
  destruct (finite_cases a Fa) as [Za | Na].
  - right. split; [|now rewrite opp_zero].
    apply reflect_along_zero; auto.
  - left. now apply reflect_along; auto.
Qed.

(** X24.  In binary32, about a coordinate axis or its opposite and with a
    finite [2 * dot(i, n)], [reflect] negates the component of [i] along
    the axis and returns the other two, each up to the sign of a zero:
    no rounding takes place. *)
Theorem reflect_axis_mirror (i n : Vector3 spec_float) :
  validVec i = true -> axisNormal n ->
  is_finite (ofZ 2 * dot i n)%fl = true ->
  B32.same_number (vx (reflect i n))
                  (if B32.is_zero (vx n) then vx i else - vx i)%fl
  /\ B32.same_number (vy (reflect i n))
                     (if B32.is_zero (vy n) then vy i else - vy i)%fl
  /\ B32.same_number (vz (reflect i n))
                     (if B32.is_zero (vz n) then vz i else - vz i)%fl.
Proof.
  intros V Ax H.
  destruct (dot_axis_finite i n V Ax H) as (Fa & Fb & Fc).
  destruct i as [a b c], n as [x y z].
  unfold validVec in V. unfold axisNormal in Ax. cbn [vx vy vz] in *.
  apply andb_true_iff in V. destruct V as [V Vc].
  apply andb_true_iff in V. destruct V as [Va Vb].
  unfold reflect, vsub, vscale.
  cbn [vx vy vz fmul fadd fsub fneg ofZ binary32] in *.
  destruct Ax as [(Ux & Zy & Zz) | [(Zx & Uy & Zz) | (Zx & Zy & Uz)]].
  - apply signed_one_cases in Ux. destruct Ux as [s ->].
    destruct (dot_axis_x s a b c y z Va Fb Fc Zy Zz) as [Dn Dz].
    split; [|split].
    + now apply reflect_along_same.
    + now apply reflect_across_same.
    + now apply reflect_across_same.
  - apply signed_one_cases in Uy. destruct Uy as [s ->].
    destruct (dot_axis_y s a b c x z Vb Fa Fc Zx Zz) as [Dn Dz].
    split; [|split].
    + now apply reflect_across_same.
    + now apply reflect_along_same.
    + now apply reflect_across_same.
  - apply signed_one_cases in Uz. destruct Uz as [s ->].
    destruct (dot_axis_z s a b c x y Vc Fa Fb Zx Zy) as [Dn Dz].
    split; [|split].
    + now apply reflect_across_same.
    + now apply reflect_across_same.
    + now apply reflect_along_same.
Qed.

Lemma reflect_axis_mirror_witness :
  B32.same_number (vy (reflect (v3 3 (-4) 5) (v3 0 1 0))) (ofZ 4)
  /\ B32.same_number (vz (reflect (v3 3 (-4) 5) (v3 0 1 0))) (ofZ 5).
Proof.
  refine (proj2 (reflect_axis_mirror (v3 3 (-4) 5) (v3 0 1 0) _ _ _)).
  - vm_compute. reflexivity.
  - right. left. repeat split; reflexivity.
  - vm_compute. reflexivity.
Defined.

(** *** One record threaded through the triangles; ties *)

Section ScanMore.

Context {F : Type} {SF : Scalar F} {SO : ScalarOrder F}.
Open Scope scalar_scope.

Implicit Types (tri : Triangle F) (ray : Ray F) (hit h c : HitRecord F).

Lemma intersect_again tri ray hit h :
  intersectTriangle tri ray hit = (true, h) ->
  intersectTriangle tri ray h = (false, h).
Proof.
  intros E. destruct (intersect_true _ _ _ _ E) as (-> & _ & _).
  clear E.
  match goal with
  | |- intersectTriangle tri ray ?r = _ =>
    destruct (intersectTriangle tri ray r) as [[|] h'] eqn:E'
  end.
  - destruct (intersect_true _ _ _ _ E') as (_ & _ & Lt).
    change ((hitDistance tri ray <? hitDistance tri ray) = true) in Lt.
    now rewrite fltb_irrefl in Lt.
  - apply intersect_false in E'. now subst.
Qed.

Lemma fltb_trans (x y z : F) :
  (x <? y) = true -> (y <? z) = true -> (x <? z) = true.
Proof.
  intros A B. exact (fltb_fleb_trans _ _ _ A (fltb_fleb _ _ B)).
Qed.

Lemma intersect_on_record tri ray c :
  c = newHitRecord \/ (distance c <? FLT_MAX) = true ->
  snd (intersectTriangle tri ray c) = closestStep ray c tri.
Proof.
  intros Inv. unfold closestStep.
  destruct (intersectTriangle tri ray newHitRecord) as [[|] h] eqn:E;
    cbn [andb].
  - destruct (intersect_true_tests _ _ _ _ E) as (C & U0 & U1 & V0 & UV).
    destruct (intersect_true _ _ _ _ E) as (-> & Lo & _).
    cbn [distance].
    destruct (hitDistance tri ray <? distance c) eqn:Lt.
    + now rewrite (intersect_accept tri ray c C U0 U1 V0 UV Lo Lt).
    + destruct (intersectTriangle tri ray c) as [[|] h'] eqn:E'.
      * destruct (intersect_true _ _ _ _ E') as (_ & _ & Lt').
        congruence.
      * apply intersect_false in E'. now subst.
  - destruct (intersectTriangle tri ray c) as [[|] h'] eqn:E'.
    + exfalso.
      destruct (intersect_true_tests _ _ _ _ E') as (C & U0 & U1 & V0 & UV).
      destruct (intersect_true _ _ _ _ E') as (_ & Lo & Lt).
      assert (Max : (hitDistance tri ray <? FLT_MAX) = true).
      { destruct Inv as [-> | Hc]; [exact Lt|].
        exact (fltb_trans _ _ _ Lt Hc). }
      rewrite (intersect_accept tri ray newHitRecord C U0 U1 V0 UV Lo Max)
        in E.
      discriminate.
    + apply intersect_false in E'. now subst.
Qed.

Lemma closestStep_bounded ray c tri :
  c = newHitRecord \/ (distance c <? FLT_MAX) = true ->
  closestStep ray c tri = newHitRecord
  \/ (distance (closestStep ray c tri) <? FLT_MAX) = true.
Proof.
  intros Inv. unfold closestStep.
  destruct (intersectTriangle tri ray newHitRecord) as [[|] h] eqn:E;
    cbn [andb]; [|exact Inv].
  destruct (distance h <? distance c); [|exact Inv].
  right. exact (proj2 (accepts_range ray tri h E)).
Qed.

Lemma threaded_fold ray triangles :
  forall c,
    c = newHitRecord \/ (distance c <? FLT_MAX) = true ->
    fold_left (fun hit tri => snd (intersectTriangle tri ray hit)) triangles c
    = fold_left (closestStep ray) triangles c.
Proof.
  induction triangles as [|tri rest IH]; intros c Inv; [reflexivity|].
  cbn [fold_left]. rewrite (intersect_on_record tri ray c Inv).
  apply IH. now apply closestStep_bounded.
Qed.

Lemma scan_keeps ray after :
  forall c,
    (forall tri h, In tri after -> accepts ray tri h ->
                   (distance h <? distance c) = false) ->
    fold_left (closestStep ray) after c = c.
Proof.
  induction after as [|tri rest IH]; intros c Far; [reflexivity|].
  cbn [fold_left].
  assert (Step : closestStep ray c tri = c).
  { unfold closestStep.
    destruct (intersectTriangle tri ray newHitRecord) as [[|] h] eqn:E;
      [|reflexivity].
    cbn [andb]. now rewrite (Far tri h (or_introl eq_refl) E). }
  rewrite Step. apply IH. intros tri' h' Hin. apply Far. now right.
Qed.

Lemma first_nearest_kept ray before tri after h :
  accepts ray tri h ->
  (forall tri' h', In tri' before -> accepts ray tri' h' ->
                   (distance h <? distance h') = true) ->
  (forall tri' h', In tri' after -> accepts ray tri' h' ->
                   (distance h' <? distance h) = false) ->
  closestHitScan ray (before ++ tri :: after) = h.
Proof.
  intros A Before After. unfold closestHitScan.
  rewrite fold_left_app. cbn [fold_left].
  fold (closestHitScan ray before).
  assert (Step : closestStep ray (closestHitScan ray before) tri = h).
  { unfold closestStep. unfold accepts in A. rewrite A. cbn [andb].
    destruct (closestHitScan_nearest ray before)
      as [[-> _] | [[tri0 [In0 A0]] _]].
    - cbn [distance newHitRecord].
      now rewrite (proj2 (accepts_range ray tri h A)).
    - now rewrite (Before _ _ In0 A0). }
  rewrite Step. now apply scan_keeps.
Qed.

End ScanMore.

(** X9.  In binary32, passing a single record, initially fresh, through
    [intersectTriangle] for every triangle in turn leaves the record that
    the scan of [trace] selects with its fresh record per triangle. *)
Theorem threaded_scan_agrees (ray : Ray spec_float)
  (triangles : list (Triangle spec_float)) :
  fold_left (fun hit tri => snd (intersectTriangle tri ray hit)) triangles
            newHitRecord
  = closestHitScan ray triangles.
Proof. apply threaded_fold. now left. Qed.

(** X10.  In binary32, after a call that registers a hit, a second call
    with the same triangle and ray on the updated record returns [false]
    and leaves it unchanged. *)
Theorem intersect_second_call (tri : Triangle spec_float)
  (ray : Ray spec_float) (hit h : HitRecord spec_float) :
  intersectTriangle tri ray hit = (true, h) ->
  intersectTriangle tri ray h = (false, h).
Proof. apply intersect_again. Qed.

Lemma intersect_second_call_witness :
  intersectTriangle floorTri rayDown
    (snd (intersectTriangle floorTri rayDown newHitRecord))
  = (false, snd (intersectTriangle floorTri rayDown newHitRecord)).
Proof.
  refine (intersect_second_call floorTri rayDown newHitRecord _ _).
  vm_compute. reflexivity.
Defined.

(** X11.  In binary32, a registered triangle that is strictly nearer than
    every hit listed before it and not farther than any hit listed after
    it is the one the scan keeps: among hits at the same nearest distance
    the scan keeps the first listed. *)
Theorem first_nearest_wins (ray : Ray spec_float)
  (before after : list (Triangle spec_float)) (tri : Triangle spec_float)
  (h : HitRecord spec_float) :
  accepts ray tri h ->
  (forall tri' h', In tri' before -> accepts ray tri' h' ->
                   (distance h <? distance h')%fl = true) ->
  (forall tri' h', In tri' after -> accepts ray tri' h' ->
                   (distance h' <? distance h)%fl = false) ->
  closestHitScan ray (before ++ tri :: after) = h
  /\ triangle (closestHitScan ray (before ++ tri :: after)) = Some tri.
Proof.
  intros A B C.
  rewrite (first_nearest_kept ray before tri after h A B C).
  split; [reflexivity|]. exact (accepts_triangle ray tri h A).
Qed.

Lemma first_nearest_wins_witness :
  triangle (closestHitScan rayDown
              ([farTri] ++ floorTri :: [layer 0 red true; occluder]))
  = Some floorTri.
Proof.
  refine (proj2 (first_nearest_wins rayDown [farTri]
                   [layer 0 red true; occluder] floorTri
                   (snd (intersectTriangle floorTri rayDown newHitRecord))
                   _ _ _)).
  - vm_compute. reflexivity.
  - intros tri' h' [<- | []] A. unfold accepts in A.
    vm_compute in A. injection A as <-. vm_compute. reflexivity.
  - intros tri' h' [<- | [<- | []]] A; unfold accepts in A;
      vm_compute in A; [injection A as <-; vm_compute; reflexivity
                       | discriminate A].
Defined.

(** *** The record kept by the scan, and the reflection test *)

Section TraceMore.

Context {F : Type} {SF : Scalar F}.
Variable powf : F -> Z -> F.

Implicit Types (tri : Triangle F) (ray : Ray F) (h c : HitRecord F).

Lemma scan_result_cases ray triangles :
  forall c,
    fold_left (closestStep ray) triangles c = c
    \/ exists tri, In tri triangles
                   /\ accepts ray tri (fold_left (closestStep ray) triangles c).
Proof.
  induction triangles as [|tri rest IH]; intros c; [now left|].
  cbn [fold_left].
  destruct (IH (closestStep ray c tri)) as [Keep | [tri' [Hin A]]].
  - rewrite Keep. unfold closestStep.
    destruct (intersectTriangle tri ray newHitRecord) as [[|] h] eqn:E;
      cbn [andb]; [|now left].
    destruct (distance h <? distance c)%fl; [|now left].
    right. exists tri. split; [now left | exact E].
  - right. exists tri'. split; [now right | exact A].
Qed.

Lemma closest_hit_some ray triangles tri :
  triangle (closestHitScan ray triangles) = Some tri ->
  In tri triangles /\ accepts ray tri (closestHitScan ray triangles).
Proof.
  intros Ht. unfold closestHitScan in *.
  destruct (scan_result_cases ray triangles newHitRecord)
    as [Keep | [tri' [Hin A]]].
  - rewrite Keep in Ht. discriminate.
  - rewrite (accepts_triangle ray tri' _ A) in Ht.
    injection Ht as <-. auto.
Qed.

Lemma trace_no_reflection ray triangles depth tri :
  depth <= 3 ->
  triangle (closestHitScan ray triangles) = Some tri ->
  depth = 3 \/ (vx (color tri) >? lit 7 10)%fl = false ->
  trace powf ray triangles depth
  = vadd (if inShadowScan (closestHitScan ray triangles) triangles
          then ambientOf (color tri)
          else vadd (vadd (ambientOf (color tri))
                          (diffuseOf (closestHitScan ray triangles)
                                     (color tri)))
                    (specularOf powf ray (closestHitScan ray triangles)))
         black.
Proof.
  intros Hd Ht Gate. rewrite (trace_hit powf ray triangles depth tri Hd Ht).
  unfold shade, reflectionOf.
  destruct Gate as [-> | ->]; [reflexivity|].
  now rewrite andb_false_r.
Qed.

End TraceMore.

(** X12.  The record the scan returns is the fresh record when its
    triangle is null; otherwise the triangle is an element of the scene
    that registers the ray with exactly this record, the position is
    [ray.pointAt(distance)] and the distance lies strictly between
    [EPSILON] and [FLT_MAX]. *)
Theorem closest_hit_wellformed {F : Type} {SF : Scalar F} (ray : Ray F)
  (triangles : list (Triangle F)) :
  let c := closestHitScan ray triangles in
  (triangle c = None -> c = newHitRecord)
  /\ (forall tri,
         triangle c = Some tri ->
         In tri triangles
         /\ intersectTriangle tri ray newHitRecord = (true, c)
         /\ position c = pointAt ray (distance c)
         /\ (distance c >? EPSILON)%fl = true
         /\ (distance c <? FLT_MAX)%fl = true).
Proof.
  intros c. split.
  - intros Hn. unfold c, closestHitScan in *.
    destruct (scan_result_cases ray triangles newHitRecord)
      as [Keep | [tri' [Hin A]]]; [exact Keep|].
    rewrite (accepts_triangle ray tri' _ A) in Hn. discriminate.
  - intros tri Ht. destruct (closest_hit_some ray triangles tri Ht) as [Hin A].
    fold c in A. destruct (accepts_range ray tri c A) as [Lo Hi].
    repeat split; auto.
    destruct (intersect_true _ _ _ _ A) as (E & _). now rewrite E.
Qed.

Lemma closest_hit_wellformed_witness :
  In floorTri [farTri; floorTri]
  /\ position (closestHitScan rayDown [farTri; floorTri])
     = pointAt rayDown (distance (closestHitScan rayDown [farTri; floorTri])).
Proof.
  destruct (proj2 (closest_hit_wellformed rayDown [farTri; floorTri]) floorTri)
    as (Hin & _ & Hpos & _).
  - vm_compute. reflexivity.
  - split; [exact Hin | exact Hpos].
Defined.

(** X13.  With a nearest hit at depth 3, or on a material whose red
    channel is not above [0.7f], [trace] makes no recursive call: the
    colour is the ambient term alone when the hit is in shadow and
    ambient plus diffuse plus specular otherwise, plus [(0, 0, 0)]. *)
Theorem trace_without_reflection {F : Type} {SF : Scalar F}
  (powf : F -> Z -> F) (ray : Ray F) (triangles : list (Triangle F))
  (depth : Z) (tri : Triangle F) :
  let c := closestHitScan ray triangles in
  depth <= 3 ->
  triangle c = Some tri ->
  depth = 3 \/ (vx (color tri) >? lit 7 10)%fl = false ->
  trace powf ray triangles depth
  = vadd (if inShadowScan c triangles
          then vscale (color tri) (lit 3 10)
          else vadd (vadd (vscale (color tri) (lit 3 10))
                          (diffuseOf c (color tri)))
                    (specularOf powf ray c))
         (mkVector3 (ofZ 0) (ofZ 0) (ofZ 0)).
Proof. intros c. apply trace_no_reflection. Qed.

Lemma trace_without_reflection_witness :
  trace B32.powi rayDown [floorTri] 3
  = vadd (vadd (vadd (vscale green (lit 3 10))
                     (diffuseOf (closestHitScan rayDown [floorTri]) green))
               (specularOf B32.powi rayDown (closestHitScan rayDown [floorTri])))
         (mkVector3 (ofZ 0) (ofZ 0) (ofZ 0)).
Proof.
  change (trace B32.powi rayDown [floorTri] 3
          = vadd (if false
                  then vscale (color floorTri) (lit 3 10)
                  else vadd (vadd (vscale (color floorTri) (lit 3 10))
                                  (diffuseOf (closestHitScan rayDown [floorTri])
                                             (color floorTri)))
                            (specularOf B32.powi rayDown
                               (closestHitScan rayDown [floorTri])))
                 (mkVector3 (ofZ 0) (ofZ 0) (ofZ 0))).
  replace false with (inShadowScan (closestHitScan rayDown [floorTri])
                                   [floorTri])
    by (vm_compute; reflexivity).
  apply (trace_without_reflection B32.powi rayDown [floorTri] 3 floorTri).
  - lia.
  - vm_compute. reflexivity.
  - now left.
Defined.

(** X14.  In a scene none of whose triangles has a red channel above
    [0.7f], [trace] gives the same colour at every depth up to 3. *)
Theorem trace_matte_depth_independent {F : Type} {SF : Scalar F}
  (powf : F -> Z -> F) (ray : Ray F) (triangles : list (Triangle F))
  (d1 d2 : Z) :
  (forall tri, In tri triangles ->
               (vx (color tri) >? lit 7 10)%fl = false) ->
  d1 <= 3 -> d2 <= 3 ->
  trace powf ray triangles d1 = trace powf ray triangles d2.
Proof.
  intros Matte H1 H2.
  destruct (triangle (closestHitScan ray triangles)) as [tri|] eqn:Ht.
  - destruct (closest_hit_some ray triangles tri Ht) as [Hin _].
    rewrite (trace_no_reflection powf ray triangles d1 tri H1 Ht
               (or_intror (Matte tri Hin))).
    now rewrite (trace_no_reflection powf ray triangles d2 tri H2 Ht
                   (or_intror (Matte tri Hin))).
  - rewrite !trace_unfold, !Z.gtb_ltb.
    replace (3 <? d1) with false by (symmetry; apply Z.ltb_ge; lia).
    replace (3 <? d2) with false by (symmetry; apply Z.ltb_ge; lia).
    cbv zeta. now rewrite Ht.
Qed.

Lemma trace_matte_depth_independent_witness :
  trace B32.powi rayDown [floorTri; layer 3 green true] 0
  = trace B32.powi rayDown [floorTri; layer 3 green true] 2.
Proof.
  apply (trace_matte_depth_independent B32.powi rayDown
           [floorTri; layer 3 green true] 0 2); try lia.
  intros tri [<- | [<- | []]]; vm_compute; reflexivity.
Defined.

(** ** The scene loader *)

(** *** Characters, tokens and numerals *)

Lemma digit_char (c : ascii) :
  isdigit c = true ->
  isspace c = false /\ (c =? "-")%char = false /\ (c =? "+")%char = false
  /\ (c =? "/")%char = false /\ (c =? "#")%char = false.
Proof.
  destruct c as [[] [] [] [] [] [] [] []]; vm_compute; intros H;
    try discriminate H; repeat split.
Qed.

Lemma string_of_uint_digits (d : uint) :
  allChars isdigit (NilEmpty.string_of_uint d) = true.
Proof. induction d; cbn; auto. Qed.

Ltac read_digit IH :=
  cbn [NilEmpty.string_of_uint]; unfold readDigits; fold readDigits;
  match goal with
  | |- context [isdigit ?c] => change (isdigit c) with true
  end;
  match goal with
  | |- context [Z.of_N (N_of_ascii ?c) - 48] =>
    let v := eval vm_compute in (Z.of_N (N_of_ascii c) - 48) in
    change (Z.of_N (N_of_ascii c) - 48) with v
  end;
  cbv iota; rewrite IH by lia.

Lemma readDigits_uint (d : uint) :
  forall acc : Z,
    0 <= acc ->
    readDigits (NilEmpty.string_of_uint d) acc
    = if acc =? 0 then Z.of_N (Pos.of_uint d)
      else Z.pos (Pos.of_uint_acc d (Z.to_pos acc)).
Proof.
  induction d; intros acc Hacc;
    [ cbn; destruct acc; try reflexivity; lia
    | read_digit IHd; destruct acc as [|p|p]; try lia;
      [ reflexivity
      | cbn [Pos.of_uint_acc];
        match goal with
        | |- (if ?b then _ else _) = _ =>
          replace b with false by (symmetry; apply Z.eqb_neq; lia)
        end;
        cbn [Z.eqb]; do 2 f_equal; apply Pos2Z.inj;
        rewrite Z2Pos.id by lia; cbn [Z.to_pos]; lia ] .. ].
Qed.

Lemma allChars_impl (p q : ascii -> bool) (s : string) :
  (forall c, p c = true -> q c = true) ->
  allChars p s = true -> allChars q s = true.
Proof.
  intros Hpq. induction s as [|c r IH]; cbn; [reflexivity|].
  intros H. apply andb_prop in H. destruct H as [Hc Hr].
  now rewrite (Hpq c Hc), (IH Hr).
Qed.

Lemma uint_head (d : uint) :
  d <> Nil ->
  exists c r, NilEmpty.string_of_uint d = String c r /\ isdigit c = true.
Proof. destruct d; [congruence | ..]; intros _; cbn; eauto. Qed.

Lemma decimal_pos (p : positive) :
  decimal (Z.pos p) = NilEmpty.string_of_uint (Pos.to_uint p).
Proof.
  unfold decimal. cbn [Z.to_int NilZero.string_of_int].
  generalize (Unsigned.to_uint_nonnil p).
  destruct (Pos.to_uint p); [congruence | reflexivity ..].
Qed.

Lemma decimal_neg (p : positive) :
  decimal (Z.neg p) = String "-" (NilEmpty.string_of_uint (Pos.to_uint p)).
Proof.
  unfold decimal. cbn [Z.to_int NilZero.string_of_int].
  generalize (Unsigned.to_uint_nonnil p).
  destruct (Pos.to_uint p); [congruence | reflexivity ..].
Qed.

Lemma readDigits_to_uint (p : positive) :
  readDigits (NilEmpty.string_of_uint (Pos.to_uint p)) 0 = Z.pos p.
Proof.
  rewrite readDigits_uint by lia. cbn [Z.eqb].
  now rewrite DecimalPos.Unsigned.of_to.
Qed.

Lemma stoi_of_decimal (n : Z) :
  INT_MIN <= n <= INT_MAX -> stoi (decimal n) = Some n.
Proof.
  intros Range. destruct n as [|p|p].
  - reflexivity.
  - rewrite decimal_pos.
    destruct (uint_head (Pos.to_uint p) (Unsigned.to_uint_nonnil p))
      as (c & r & E & Hc).
    destruct (digit_char c Hc) as (Sp & Mi & Pl & _).
    assert (R := readDigits_to_uint p). rewrite E in *.
    unfold stoi. cbn [skipSpace]. rewrite Sp, Mi, Pl.
    cbv beta iota zeta. cbn [startsWithDigit]. rewrite Hc, R.
    replace ((INT_MIN <=? Z.pos p) && (Z.pos p <=? INT_MAX)) with true;
      [reflexivity|].
    symmetry. apply andb_true_intro. split; apply Z.leb_le; lia.
  - rewrite decimal_neg.
    destruct (uint_head (Pos.to_uint p) (Unsigned.to_uint_nonnil p))
      as (c & r & E & Hc).
    assert (R := readDigits_to_uint p). rewrite E in *.
    unfold stoi. cbn [skipSpace].
    change (isspace "-") with false. cbv beta iota zeta.
    change ("-" =? "-")%char with true.
    cbv beta iota zeta. cbn [startsWithDigit]. rewrite Hc, R.
    change (- Z.pos p) with (Z.neg p).
    replace ((INT_MIN <=? Z.neg p) && (Z.neg p <=? INT_MAX)) with true;
      [reflexivity|].
    symmetry. apply andb_true_intro. split; apply Z.leb_le; lia.
Qed.

(** X15.  Round trip: the decimal numeral of an integer within [int] is
    read back by [stoi] as that integer. *)
Theorem stoi_decimal (n : Z) :
  INT_MIN <= n <= INT_MAX -> stoi (decimal n) = Some n.
Proof. apply stoi_of_decimal. Qed.

Lemma stoi_decimal_witness : stoi (decimal 2147483647) = Some 2147483647.
Proof. apply (stoi_decimal 2147483647). unfold INT_MIN, INT_MAX. lia. Defined.

Lemma decimal_chars (n : Z) : allChars numeralChar (decimal n) = true.
Proof.
  assert (D : forall d, allChars numeralChar (NilEmpty.string_of_uint d)
                        = true).
  { intros d. apply (allChars_impl isdigit); [|apply string_of_uint_digits].
    intros c Hc. unfold numeralChar. now rewrite Hc. }
  destruct n as [|p|p].
  - reflexivity.
  - rewrite decimal_pos. apply D.
  - rewrite decimal_neg. cbn [allChars]. now rewrite D.
Qed.

Lemma numeralChar_facts (c : ascii) :
  numeralChar c = true ->
  isspace c = false /\ (c =? "/")%char = false /\ (c =? "#")%char = false.
Proof.
  destruct c as [[] [] [] [] [] [] [] []]; vm_compute; intros H;
    try discriminate H; repeat split.
Qed.

Lemma beforeSlash_app (a b : string) :
  allChars (fun c => negb (c =? "/")%char) a = true ->
  beforeSlash (a ++ String "/" b) = a /\ beforeSlash a = a.
Proof.
  induction a as [|c r IH]; cbn; [auto|].
  intros H. apply andb_prop in H. destruct H as [Hc Hr].
  apply negb_true_iff in Hc. rewrite Hc.
  destruct (IH Hr) as [-> ->]. auto.
Qed.

Lemma faceIndex_suffix (a b : string) :
  allChars (fun c => negb (c =? "/")%char) a = true ->
  faceIndex (a ++ String "/" b) = faceIndex a.
Proof.
  intros H. unfold faceIndex.
  now destruct (beforeSlash_app a b H) as [-> ->].
Qed.

Lemma decimal_no_slash (n : Z) :
  allChars (fun c => negb (c =? "/")%char) (decimal n) = true.
Proof.
  apply (allChars_impl numeralChar); [|apply decimal_chars].
  intros c Hc. destruct (numeralChar_facts c Hc) as (_ & -> & _).
  reflexivity.
Qed.

Lemma faceIndex_of_decimal (n : Z) :
  INT_MIN <= n <= INT_MAX -> faceIndex (decimal n) = Some (n - 1).
Proof.
  intros Range. unfold faceIndex.
  destruct (beforeSlash_app (decimal n) EmptyString (decimal_no_slash n))
    as [_ ->].
  now rewrite (stoi_of_decimal n Range).
Qed.

(** X16.  Everything from the first ['/'] of a face token on is cut
    before the number is read; the decimal numeral of an integer [n] with
    [INT_MIN < n <= INT_MAX], with or without such a suffix, gives the
    index [n - 1], which is then within [int]. *)
Theorem faceIndex_slash_suffix :
  (forall a b : string,
      allChars (fun c => negb (c =? "/")%char) a = true ->
      beforeSlash (a ++ String "/" b) = a /\ beforeSlash a = a)
  /\ (forall (n : Z) (b : string),
         INT_MIN < n <= INT_MAX ->
         faceIndex (decimal n) = Some (n - 1)
         /\ faceIndex (decimal n ++ String "/" b) = Some (n - 1)
         /\ INT_MIN <= n - 1 <= INT_MAX).
Proof.
  split; [exact beforeSlash_app|].
  intros n b Range.
  rewrite (faceIndex_suffix _ b (decimal_no_slash n)).
  split; [|split]; [apply faceIndex_of_decimal; lia ..|lia].
Qed.

Lemma faceIndex_slash_suffix_witness :
  faceIndex (decimal 12 ++ String "/" "5/7") = Some 11.
Proof.
  refine (proj1 (proj2 (proj2 faceIndex_slash_suffix 12 "5/7"%string _))).
  unfold INT_MIN, INT_MAX. lia.
Defined.

(** *** Lines *)

Section LoaderFacts.

Context {F : Type} {SF : Scalar F}.
Variable readFloats : Vector3 F -> string -> Vector3 F.
Variable stale : nat -> Vector3 F.
Variables (col : Vector3 F) (scale : F) (offset : Vector3 F) (ds : bool).

Local Notation "'step'" := (loadLine readFloats stale col scale offset ds).
Local Notation "'load'" := (loadOBJ readFloats stale col scale offset ds).
Local Notation "'read'" := (vertexRead readFloats).
Local Notation "'loaded'" := (loadedTriangle readFloats col scale offset ds).

Lemma nextToken_empty : nextToken EmptyString = (EmptyString, EmptyString).
Proof. reflexivity. Qed.

(** The first token of a line that begins with ['#'] begins with ['#']. *)
Lemma nextToken_hash (r : string) :
  exists w rest, nextToken (String "#" r) = (String "#" w, rest).
Proof.
  unfold nextToken. cbn [skipSpace]. change (isspace "#") with false.
  cbv iota. cbn [takeWord]. change (isspace "#") with false. cbv iota.
  destruct (takeWord r) as [w rest]. eauto.
Qed.

Lemma loadLine_other (st : list (Vector3 F) * list (Triangle F))
  (line : string) :
  fst (nextToken line) <> "v"%string ->
  fst (nextToken line) <> "f"%string ->
  step st line = st.
Proof.
  intros Nv Nf. unfold loadLine. destruct st as [vs ts].
  destruct line as [|c r]; [reflexivity|].
  destruct (c =? "#")%char; [reflexivity|].
  destruct (nextToken (String c r)) as [type rest]. cbn [fst] in *.
  apply String.eqb_neq in Nv, Nf. now rewrite Nv, Nf.
Qed.

Lemma loadLine_comment (st : list (Vector3 F) * list (Triangle F))
  (line : string) :
  line = EmptyString \/ (exists r, line = String "#" r) ->
  step st line = st.
Proof.
  intros [-> | [r ->]]; destruct st as [vs ts]; reflexivity.
Qed.

Lemma load_skip (l1 l2 : list string) (line : string) :
  (forall st, step st line = st) ->
  load (Some (l1 ++ line :: l2)) = load (Some (l1 ++ l2)).
Proof.
  intros Skip. unfold loadOBJ. rewrite !fold_left_app. cbn [fold_left].
  now rewrite Skip.
Qed.

Lemma faceTriangle_some (vs : list (Vector3 F)) (i0 i1 i2 : Z)
  (tri : Triangle F) :
  faceTriangle col scale offset ds vs i0 i1 i2 = Some tri ->
  let zero := mkVector3 (ofZ 0) (ofZ 0) (ofZ 0) in
  let size := Z.of_nat (List.length vs) in
  (0 <= i0 < size /\ 0 <= i1 < size /\ 0 <= i2 < size)
  /\ tri = mkTriangle (placed scale offset (nth (Z.to_nat i0) vs zero))
                      (placed scale offset (nth (Z.to_nat i1) vs zero))
                      (placed scale offset (nth (Z.to_nat i2) vs zero))
                      col ds.
Proof.
  unfold faceTriangle.
  match goal with
  | |- context [if ?b then _ else _] => destruct b eqn:B
  end; [|discriminate].
  intros [= <-]. cbv zeta. split; [|reflexivity].
  repeat (apply andb_prop in B; destruct B as [B ?]).
  repeat match goal with
         | H : (_ <=? _) = true |- _ => apply Z.leb_le in H
         | H : (_ <? _) = true |- _ => apply Z.ltb_lt in H
         end.
  lia.
Qed.

Lemma faceTriangle_none (vs : list (Vector3 F)) (i0 i1 i2 : Z) :
  (exists i, In i [i0; i1; i2]
             /\ (i < 0 \/ Z.of_nat (List.length vs) <= i)) ->
  faceTriangle col scale offset ds vs i0 i1 i2 = None.
Proof.
  intros (i & Hin & Bad). unfold faceTriangle.
  match goal with
  | |- context [if ?b then _ else _] => destruct b eqn:B
  end; [|reflexivity].
  exfalso.
  repeat (apply andb_prop in B; destruct B as [B ?]).
  repeat match goal with
         | H : (_ <=? _) = true |- _ => apply Z.leb_le in H
         | H : (_ <? _) = true |- _ => apply Z.ltb_lt in H
         end.
  destruct Hin as [<- | [<- | [<- | []]]]; lia.
Qed.

Lemma vertexRead_mono (L L' : list string) (a : Vector3 F) :
  incl L L' -> read L a -> read L' a.
Proof.
  intros I (line & rest & prior & Hin & Tok & E). exists line, rest, prior.
  auto.
Qed.

Lemma loadedTriangle_mono (L L' : list string) (tri : Triangle F) :
  incl L L' -> loaded L tri -> loaded L' tri.
Proof.
  intros I (a & b & c & Ha & Hb & Hc & E).
  exists a, b, c. repeat split; eauto using vertexRead_mono.
Qed.

Lemma loadLine_invariant (L : list string) (vs : list (Vector3 F))
  (ts : list (Triangle F)) (line : string) :
  Forall (read L) vs -> Forall (loaded L) ts ->
  Forall (read (L ++ [line])) (fst (step (vs, ts) line))
  /\ Forall (loaded (L ++ [line])) (snd (step (vs, ts) line)).
Proof.
  intros Hv Ht.
  assert (I : incl L (L ++ [line])) by (apply incl_appl, incl_refl).
  assert (Hv' : Forall (read (L ++ [line])) vs).
  { eapply Forall_impl; [|exact Hv]. intros a. now apply vertexRead_mono. }
  assert (Ht' : Forall (loaded (L ++ [line])) ts).
  { eapply Forall_impl; [|exact Ht]. intros a. now apply loadedTriangle_mono. }
  unfold loadLine.
  destruct line as [|c r]; [now split|].
  destruct (c =? "#")%char; [now split|].
  destruct (nextToken (String c r)) as [type rest] eqn:Tok.
  destruct (String.eqb type "v") eqn:Ev.
  - apply String.eqb_eq in Ev. subst type. cbn [fst snd]. split; [|exact Ht'].
    apply Forall_app. split; [exact Hv'|].
    constructor; [|constructor].
    exists (String c r), rest, (stale (List.length vs)).
    split; [|now split].
    apply in_or_app. right. now left.
  - destruct (String.eqb type "f"); [|now split].
    destruct (nextToken rest) as [t0 r0].
    destruct (nextToken r0) as [t1 r1].
    destruct (nextToken r1) as [t2 r2].
    destruct (faceIndex t0) as [i0|]; [|now split].
    destruct (faceIndex t1) as [i1|]; [|now split].
    destruct (faceIndex t2) as [i2|]; [|now split].
    destruct (faceTriangle col scale offset ds vs i0 i1 i2) as [tri|] eqn:Ft;
      [|now split].
    cbn [fst snd]. split; [exact Hv'|].
    apply Forall_app. split; [exact Ht'|].
    constructor; [|constructor].
    destruct (faceTriangle_some vs i0 i1 i2 tri Ft) as [(R0 & R1 & R2) ->].
    rewrite Forall_forall in Hv'.
    do 3 eexists. repeat split; try reflexivity;
      apply Hv', nth_In; lia.
Qed.

Lemma load_invariant (lines : list string) :
  forall (L : list string) (vs : list (Vector3 F)) (ts : list (Triangle F)),
    Forall (read L) vs -> Forall (loaded L) ts ->
    Forall (loaded (L ++ lines)) (snd (fold_left step lines (vs, ts))).
Proof.
  induction lines as [|line rest IH]; intros L vs ts Hv Ht.
  - now rewrite app_nil_r.
  - cbn [fold_left].
    destruct (loadLine_invariant L vs ts line Hv Ht) as [Hv' Ht'].
    destruct (step (vs, ts) line) as [vs' ts'].
    replace (L ++ line :: rest) with ((L ++ [line]) ++ rest)
      by now rewrite <- app_assoc.
    now apply IH.
Qed.

End LoaderFacts.

(** X17.  Every triangle [loadOBJ] returns carries the colour and the
    sidedness flag of the call, and each of its three vertices is, scaled
    and offset, what the extraction of line 239 leaves in [x], [y], [z] on
    a ["v"] line of the file, over some content of these variables (which
    matters only when the line holds fewer than three numbers).  A file
    that cannot be opened gives no triangle. *)
Theorem loadOBJ_invariant {F : Type} {SF : Scalar F}
  (readFloats : Vector3 F -> string -> Vector3 F) (stale : nat -> Vector3 F)
  (col : Vector3 F) (scale : F)
  (offset : Vector3 F) (ds : bool) :
  loadOBJ readFloats stale col scale offset ds None = []
  /\ forall (lines : list string) (tri : Triangle F),
      In tri (loadOBJ readFloats stale col scale offset ds (Some lines)) ->
      color tri = col /\ doubleSided tri = ds
      /\ exists a b c,
          vertexRead readFloats lines a /\ vertexRead readFloats lines b
          /\ vertexRead readFloats lines c
          /\ v0 tri = vadd (vscale a scale) offset
          /\ v1 tri = vadd (vscale b scale) offset
          /\ v2 tri = vadd (vscale c scale) offset.
Proof.
  split; [reflexivity|].
  intros lines tri Hin.
  assert (A := load_invariant readFloats stale col scale offset ds lines
                 [] [] [] (Forall_nil _) (Forall_nil _)).
  cbn [app] in A. rewrite Forall_forall in A.
  destruct (A tri Hin) as (a & b & c & Ha & Hb & Hc & ->).
  cbn. repeat split. exists a, b, c. repeat split; assumption.
Qed.

Lemma loadOBJ_invariant_witness :
  color (nth 0 (loadOBJ readInts sampleStale red (B32.of_Z 2) (v3 0 0 (-2)) true
                        (Some sampleFile)) (unitTri false)) = red.
Proof.
  refine (proj1 (proj2 (loadOBJ_invariant readInts sampleStale red (B32.of_Z 2)
                          (v3 0 0 (-2)) true) sampleFile _ _)).
  vm_compute. left. reflexivity.
Defined.

(** X18.  Comment lines, empty lines and lines whose first token is neither
    ["v"] nor ["f"] change nothing: the file loads as it does without
    them. *)
Theorem loadOBJ_ignored_line {F : Type} {SF : Scalar F}
  (readFloats : Vector3 F -> string -> Vector3 F) (stale : nat -> Vector3 F)
  (col : Vector3 F) (scale : F)
  (offset : Vector3 F) (ds : bool) (l1 l2 : list string) (line : string) :
  line = EmptyString \/ (exists r, line = String "#" r)
  \/ (fst (nextToken line) <> "v"%string
      /\ fst (nextToken line) <> "f"%string) ->
  loadOBJ readFloats stale col scale offset ds (Some (l1 ++ line :: l2))
  = loadOBJ readFloats stale col scale offset ds (Some (l1 ++ l2)).
Proof.
  intros H. apply load_skip. intros st.
  destruct H as [E | [E | [Nv Nf]]].
  - apply loadLine_comment. now left.
  - apply loadLine_comment. now right.
  - now apply loadLine_other.
Qed.

Lemma loadOBJ_ignored_line_witness :
  loadOBJ readInts sampleStale red (B32.of_Z 2) (v3 0 0 (-2)) true
          (Some (["v 0 0 0"; "v 1 0 0"]%string
                 ++ "vn 0 0 1"%string :: ["v 0 1 0"; "f 1 2 3"]%string))
  = loadOBJ readInts sampleStale red (B32.of_Z 2) (v3 0 0 (-2)) true
            (Some (["v 0 0 0"; "v 1 0 0"]%string
                   ++ ["v 0 1 0"; "f 1 2 3"]%string)).
Proof.
  apply (loadOBJ_ignored_line readInts sampleStale red (B32.of_Z 2)
           (v3 0 0 (-2)) true).
  right. right. split; vm_compute; discriminate.
Defined.

(** X19.  A face line is dropped, leaving vertices and triangles as they
    were, when one of its first three tokens has no number before its
    first ['/'], or a number below 1 (zero, or a negative OBJ index), or a
    number above the count of vertices read so far. *)
Theorem loadLine_face_dropped {F : Type} {SF : Scalar F}
  (readFloats : Vector3 F -> string -> Vector3 F) (stale : nat -> Vector3 F)
  (col : Vector3 F) (scale : F)
  (offset : Vector3 F) (ds : bool)
  (vs : list (Vector3 F)) (ts : list (Triangle F))
  (line rest t0 r0 t1 r1 t2 r2 : string) :
  nextToken line = ("f"%string, rest) ->
  nextToken rest = (t0, r0) -> nextToken r0 = (t1, r1) ->
  nextToken r1 = (t2, r2) ->
  (exists t, In t [t0; t1; t2]
             /\ match stoi (beforeSlash t) with
                | None => True
                | Some n => n < 1 \/ Z.of_nat (List.length vs) < n
                end) ->
  loadLine readFloats stale col scale offset ds (vs, ts) line = (vs, ts).
Proof.
  intros Tok T0 T1 T2 (t & Hin & Bad).
  unfold loadLine. destruct line as [|c r]; [reflexivity|].
  destruct (c =? "#")%char; [reflexivity|].
  rewrite Tok. cbn [String.eqb Ascii.eqb]. change (String.eqb "f" "v") with false.
  change (String.eqb "f" "f") with true. cbv iota.
  rewrite T0, T1, T2.
  unfold faceIndex.
  destruct (stoi (beforeSlash t0)) as [n0|] eqn:S0; [|reflexivity].
  destruct (stoi (beforeSlash t1)) as [n1|] eqn:S1; [|reflexivity].
  destruct (stoi (beforeSlash t2)) as [n2|] eqn:S2; [|reflexivity].
  rewrite faceTriangle_none; [reflexivity|].
  destruct Hin as [<- | [<- | [<- | []]]].
  - rewrite S0 in Bad. exists (n0 - 1). split; [now left | lia].
  - rewrite S1 in Bad. exists (n1 - 1). split; [right; now left | lia].
  - rewrite S2 in Bad. exists (n2 - 1). split; [right; right; now left | lia].
Qed.

Lemma loadLine_face_dropped_witness :
  loadLine readInts sampleStale red (B32.of_Z 2) (v3 0 0 (-2)) true
           ([v3 0 0 0; v3 1 0 0; v3 0 1 0], []) "f -1 -2 -3"%string
  = ([v3 0 0 0; v3 1 0 0; v3 0 1 0], []).
Proof.
  refine (loadLine_face_dropped readInts sampleStale red (B32.of_Z 2)
            (v3 0 0 (-2)) true
            [v3 0 0 0; v3 1 0 0; v3 0 1 0] []
            "f -1 -2 -3"%string " -1 -2 -3"%string "-1"%string
            " -2 -3"%string "-2"%string " -3"%string "-3"%string ""%string
            _ _ _ _ _); try reflexivity.
  exists "-1"%string. split; [now left|]. vm_compute. left. reflexivity.
Defined.

(** *** A well-formed file *)

Lemma skipSpace_word (c : ascii) (r : string) :
  isspace c = false -> skipSpace (String c r) = String c r.
Proof. intros H. cbn [skipSpace]. now rewrite H. Qed.

Lemma takeWord_word (w : string) :
  allChars (fun c => negb (isspace c)) w = true ->
  takeWord w = (w, EmptyString)
  /\ forall r, takeWord (w ++ String " " r) = (w, String " " r).
Proof.
  induction w as [|c w IH]; intros H.
  - split; [reflexivity|]. intros r. reflexivity.
  - cbn [allChars] in H. apply andb_prop in H. destruct H as [Hc Hw].
    apply negb_true_iff in Hc. destruct (IH Hw) as [E1 E2].
    split.
    + cbn [takeWord]. now rewrite Hc, E1.
    + intros r. cbn [append takeWord]. now rewrite Hc, E2.
Qed.

Lemma decimal_word (n : Z) :
  allChars (fun c => negb (isspace c)) (decimal n) = true.
Proof.
  apply (allChars_impl numeralChar); [|apply decimal_chars].
  intros c Hc. destruct (numeralChar_facts c Hc) as (-> & _). reflexivity.
Qed.

Lemma decimal_head (n : Z) :
  exists c r, decimal n = String c r /\ isspace c = false.
Proof.
  generalize (decimal_word n).
  assert (N : decimal n <> EmptyString).
  { destruct n as [|p|p]; [discriminate| |].
    - rewrite decimal_pos.
      destruct (uint_head _ (Unsigned.to_uint_nonnil p)) as (c & r & -> & _).
      discriminate.
    - rewrite decimal_neg. discriminate. }
  destruct (decimal n) as [|c r]; [congruence|].
  cbn [allChars]. intros H. apply andb_prop in H. destruct H as [Hc _].
  apply negb_true_iff in Hc. eauto.
Qed.

Lemma nextToken_numeral (n : Z) :
  nextToken (String " " (decimal n)) = (decimal n, EmptyString)
  /\ forall r, nextToken (String " " (decimal n ++ String " " r))
               = (decimal n, String " " r).
Proof.
  destruct (takeWord_word (decimal n) (decimal_word n)) as [E1 E2].
  destruct (decimal_head n) as (c & w & E & Hc).
  unfold nextToken. cbn [skipSpace]. change (isspace " ") with true.
  cbv iota. split.
  - rewrite E in *. now rewrite (skipSpace_word c w Hc).
  - intros r. rewrite <- (E2 r). rewrite E. cbn [append].
    now rewrite (skipSpace_word c _ Hc).
Qed.

Lemma nextToken_faceLine (a b c : Z) :
  nextToken (faceLine a b c)
  = ("f"%string,
     String " " (decimal a ++ String " " (decimal b ++ String " " (decimal c)))).
Proof. reflexivity. Qed.

Section WellFormed.

Context {F : Type} {SF : Scalar F}.
Variable readFloats : Vector3 F -> string -> Vector3 F.
Variable stale : nat -> Vector3 F.
Variables (col : Vector3 F) (scale : F) (offset : Vector3 F) (ds : bool).

Local Notation "'step'" := (loadLine readFloats stale col scale offset ds).

Lemma loadLine_vertex (vs : list (Vector3 F)) (ts : list (Triangle F))
  (line : string) :
  fst (nextToken line) = "v"%string ->
  step (vs, ts) line
  = (vs ++ [readFloats (stale (List.length vs)) (snd (nextToken line))], ts).
Proof.
  intros Tok. unfold loadLine.
  destruct line as [|c r]; [discriminate Tok|].
  destruct (c =? "#")%char eqn:Hash.
  - apply Ascii.eqb_eq in Hash. subst c.
    destruct (nextToken_hash r) as (w & rest & E). rewrite E in Tok.
    discriminate Tok.
  - destruct (nextToken (String c r)) as [type rest]. cbn [fst snd] in *.
    subst type. reflexivity.
Qed.

Lemma load_vertices (vlines : list string) (prior : Vector3 F) :
  (forall line, In line vlines ->
                fst (nextToken line) = "v"%string
                /\ writesAll readFloats (snd (nextToken line))) ->
  forall (vs : list (Vector3 F)) (ts : list (Triangle F)),
    fold_left step vlines (vs, ts)
    = (vs ++ map (fun line => readFloats prior (snd (nextToken line)))
                 vlines, ts).
Proof.
  induction vlines as [|line rest IH]; intros V vs ts.
  - cbn. now rewrite app_nil_r.
  - cbn [fold_left map].
    destruct (V line (or_introl eq_refl)) as [Tok W].
    rewrite (loadLine_vertex vs ts line Tok).
    rewrite (W (stale (List.length vs)) prior).
    rewrite IH by (intros l Hl; apply V; now right).
    now rewrite <- app_assoc.
Qed.

Lemma loadLine_face (vs : list (Vector3 F)) (ts : list (Triangle F))
  (a b c : Z) :
  Z.of_nat (List.length vs) <= INT_MAX ->
  1 <= a <= Z.of_nat (List.length vs) ->
  1 <= b <= Z.of_nat (List.length vs) ->
  1 <= c <= Z.of_nat (List.length vs) ->
  step (vs, ts) (faceLine a b c)
  = (vs,
     ts ++ [mkTriangle
              (placed scale offset
                 (nth (Z.to_nat (a - 1)) vs (mkVector3 (ofZ 0) (ofZ 0) (ofZ 0))))
              (placed scale offset
                 (nth (Z.to_nat (b - 1)) vs (mkVector3 (ofZ 0) (ofZ 0) (ofZ 0))))
              (placed scale offset
                 (nth (Z.to_nat (c - 1)) vs (mkVector3 (ofZ 0) (ofZ 0) (ofZ 0))))
              col ds]).
Proof.
  intros Max Ra Rb Rc.
  assert (Ia : INT_MIN <= a <= INT_MAX) by (unfold INT_MIN in *; lia).
  assert (Ib : INT_MIN <= b <= INT_MAX) by (unfold INT_MIN in *; lia).
  assert (Ic : INT_MIN <= c <= INT_MAX) by (unfold INT_MIN in *; lia).
  unfold loadLine.
  change (faceLine a b c)
    with (String "f" (String " " (decimal a ++ String " "
                        (decimal b ++ String " " (decimal c))))) at 1.
  change ("f" =? "#")%char with false. cbv iota.
  rewrite nextToken_faceLine.
  change (String.eqb "f" "v") with false.
  change (String.eqb "f" "f") with true. cbv iota.
  rewrite (proj2 (nextToken_numeral a)), (proj2 (nextToken_numeral b)),
    (proj1 (nextToken_numeral c)).
  rewrite (faceIndex_of_decimal a Ia), (faceIndex_of_decimal b Ib),
    (faceIndex_of_decimal c Ic).
  unfold faceTriangle. cbv zeta.
  assert (C : (0 <=? a - 1) && (a - 1 <? Z.of_nat (List.length vs))
              && (0 <=? b - 1) && (b - 1 <? Z.of_nat (List.length vs))
              && (0 <=? c - 1) && (c - 1 <? Z.of_nat (List.length vs))
              = true).
  { repeat (apply andb_true_intro; split);
      (apply Z.leb_le || apply Z.ltb_lt); lia. }
  now rewrite C.
Qed.

Lemma load_faces (faces : list (Z * Z * Z)) :
  forall (vs : list (Vector3 F)) (ts : list (Triangle F)),
    Z.of_nat (List.length vs) <= INT_MAX ->
    (forall a b c, In (a, b, c) faces ->
                   1 <= a <= Z.of_nat (List.length vs)
                   /\ 1 <= b <= Z.of_nat (List.length vs)
                   /\ 1 <= c <= Z.of_nat (List.length vs)) ->
    fold_left step (map (fun '(a, b, c) => faceLine a b c) faces) (vs, ts)
    = (vs,
       ts ++ map (fun '(a, b, c) =>
                    let vertex n :=
                      placed scale offset
                        (nth (Z.to_nat (n - 1)) vs
                             (mkVector3 (ofZ 0) (ofZ 0) (ofZ 0))) in
                    mkTriangle (vertex a) (vertex b) (vertex c) col ds)
                 faces).
Proof.
  induction faces as [|[[a b] c] rest IH]; intros vs ts Max R.
  - cbn. now rewrite app_nil_r.
  - cbn [map fold_left].
    destruct (R a b c (or_introl eq_refl)) as (Ra & Rb & Rc).
    rewrite (loadLine_face vs ts a b c Max Ra Rb Rc).
    rewrite IH; [|exact Max|intros; apply R; now right].
    now rewrite <- app_assoc.
Qed.

End WellFormed.

(** X20.  A file of vertex lines, each holding three numbers (the
    extraction writes [x], [y] and [z]), followed by face lines written
    with decimal indices between 1 and the number of vertices, loads as
    one triangle per face line, in order, each made of the vertices its
    indices name, scaled and offset. *)
Theorem loadOBJ_well_formed {F : Type} {SF : Scalar F}
  (readFloats : Vector3 F -> string -> Vector3 F) (stale : nat -> Vector3 F)
  (col : Vector3 F) (scale : F)
  (offset : Vector3 F) (ds : bool)
  (vlines : list string) (faces : list (Z * Z * Z)) (prior : Vector3 F) :
  (forall line, In line vlines ->
                fst (nextToken line) = "v"%string
                /\ writesAll readFloats (snd (nextToken line))) ->
  Z.of_nat (List.length vlines) <= INT_MAX ->
  (forall a b c, In (a, b, c) faces ->
                 1 <= a <= Z.of_nat (List.length vlines)
                 /\ 1 <= b <= Z.of_nat (List.length vlines)
                 /\ 1 <= c <= Z.of_nat (List.length vlines)) ->
  loadOBJ readFloats stale col scale offset ds
          (Some (vlines ++ map (fun '(a, b, c) => faceLine a b c) faces))
  = map (fun '(a, b, c) =>
           let vertex n :=
             vadd (vscale (readFloats prior
                             (snd (nextToken
                                     (nth (Z.to_nat (n - 1)) vlines
                                          EmptyString))))
                          scale)
                  offset in
           mkTriangle (vertex a) (vertex b) (vertex c) col ds)
        faces.
Proof.
  intros V Max R. unfold loadOBJ. rewrite fold_left_app.
  rewrite (load_vertices readFloats stale col scale offset ds vlines prior V
             [] []).
  rewrite app_nil_l.
  set (rd := fun line => readFloats prior (snd (nextToken line))).
  rewrite load_faces; rewrite ?length_map; try assumption.
  cbn [snd]. rewrite app_nil_l. apply map_ext_in. intros [[a b] c] Hin.
  destruct (R a b c Hin) as (Ra & Rb & Rc).
  assert (N : forall n, 1 <= n <= Z.of_nat (List.length vlines) ->
                nth (Z.to_nat (n - 1)) (map rd vlines)
                    (mkVector3 (ofZ 0) (ofZ 0) (ofZ 0))
                = rd (nth (Z.to_nat (n - 1)) vlines EmptyString)).
  { intros n Rn. rewrite <- (map_nth rd). apply nth_indep.
    rewrite length_map. lia. }
  cbv beta iota zeta. unfold placed.
  now rewrite (N a Ra), (N b Rb), (N c Rc).
Qed.

Lemma loadOBJ_well_formed_witness :
  loadOBJ readInts sampleStale red (B32.of_Z 2) (v3 0 0 (-2)) true
          (Some (["v 0 0 0"; "v 1 0 0"; "v 1 1 0"; "v 0 1 0"]%string
                 ++ map (fun '(a, b, c) => faceLine a b c)
                        [(1, 2, 3); (1, 3, 4)]))
  = [ mkTriangle (v3 0 0 (-2)) (v3 2 0 (-2)) (v3 2 2 (-2)) red true;
      mkTriangle (v3 0 0 (-2)) (v3 2 2 (-2)) (v3 0 2 (-2)) red true ].
Proof.
  refine (eq_trans
            (loadOBJ_well_formed readInts sampleStale red (B32.of_Z 2)
               (v3 0 0 (-2)) true
               ["v 0 0 0"; "v 1 0 0"; "v 1 1 0"; "v 0 1 0"]%string
               [(1, 2, 3); (1, 3, 4)] (v3 0 0 0) _ _ _) _).
  - intros line [<- | [<- | [<- | [<- | []]]]];
      (split; [reflexivity | intros p q; reflexivity]).
  - unfold INT_MAX. cbn. lia.
  - intros a b c [[= <- <- <-] | [[= <- <- <-] | []]]; cbn; lia.
  - vm_compute. reflexivity.
Defined.

(** ** The camera, the scene of [main] and the render loop *)

(** [PI] is within half a unit in the last place of the literal
    [3.14159265358979323846], whose binade has the unit [2^-22]. *)
Lemma PI_nearest :
  PI = S754_finite false 13176795 (-22)
  /\ 2 * Z.abs (13176795 * 10 ^ 20 - 314159265358979323846 * 2 ^ 22)
     < 10 ^ 20.
Proof. split; [reflexivity|]. vm_compute. reflexivity. Qed.

(** *** The primary ray *)

Lemma div_negative_by_sign_clear (m : positive) (e : Z) (y : spec_float) :
  sign_clear y = true ->
  SFltb (S754_zero false) (B32.div (S754_finite true m e) y) = false.
Proof.
  destruct y as [s|s| |s my ey]; try destruct s; try discriminate;
    try reflexivity.
  intros _. unfold B32.div, SFdiv.
  destruct (SFdiv_core_binary _ _ _ _ _ _) as [[mz ez] lz].
  cbn [xorb].
  destruct (binary_round_aux_sign B32.prec B32.emax true mz ez lz)
    as [-> | [-> | [-> | (m' & e' & ->)]]]; reflexivity.
Qed.

Lemma length_sign_clear (v : Vector3 spec_float) :
  sign_clear (length v) = true.
Proof. unfold length. apply sqrt_sign_clear, dot_self_sign_clear. Qed.

Lemma normalize_backward (px py : spec_float) :
  (vz (normalize (mkVector3 px py (B32.of_Z (-1)))) >? ofZ 0)%fl = false.
Proof.
  set (v := mkVector3 px py (B32.of_Z (-1))).
  destruct (gt_1e8 (length v)) eqn:G.
  - rewrite (normalize_long v G). cbn [vz].
    apply div_negative_by_sign_clear, length_sign_clear.
  - rewrite (normalize_not_long v G). reflexivity.
Qed.

(** X21.  The primary ray starts at the camera and never points towards
    [+z]: the [z] component of its direction is not positive, whatever
    the pixel, the image size and the value of [tan]. *)
Theorem primary_ray_forward (tan : spec_float -> spec_float)
  (x y width height : Z) (cameraPos : Vector3 spec_float) :
  origin (computePrimRay tan x y width height cameraPos) = cameraPos
  /\ (vz (direction (computePrimRay tan x y width height cameraPos))
        >? ofZ 0)%fl = false.
Proof.
  split; [reflexivity|]. unfold computePrimRay. cbv zeta. cbn [direction].
  apply normalize_backward.
Qed.

(** *** The render loop *)

Section Loops.

Context {A : Type}.

Lemma assign_length (l : list A) (i : nat) (v : A) :
  List.length (assign l i v) = List.length l.
Proof.
  revert i. induction l as [|a l IH]; intros [|i]; cbn; auto.
Qed.

Lemma nth_assign_same (l : list A) (i : nat) (v d : A) :
  (i < List.length l)%nat -> nth i (assign l i v) d = v.
Proof.
  revert i. induction l as [|a l IH]; intros [|i] H; cbn in *;
    try lia; auto. apply IH. lia.
Qed.

Lemma nth_assign_other (l : list A) (i j : nat) (v d : A) :
  i <> j -> nth j (assign l i v) d = nth j l d.
Proof.
  revert i j. induction l as [|a l IH]; intros [|i] [|j] H; cbn;
    try reflexivity; try congruence. apply IH. congruence.
Qed.

Lemma counter_succ (n : Z) :
  0 <= n -> counter (n + 1) = counter n ++ [n].
Proof.
  intros H. unfold counter.
  replace (Z.to_nat (n + 1)) with (S (Z.to_nat n)) by lia.
  rewrite seq_S, map_app. cbn [map plus]. now rewrite Z2Nat.id.
Qed.

Lemma counter_fold (St : Type) (f : St -> Z -> St) (P : Z -> St -> Prop)
  (init : St) (n : Z) :
  0 <= n -> P 0 init ->
  (forall i a, 0 <= i < n -> P i a -> P (i + 1) (f a i)) ->
  P n (fold_left f (counter n) init).
Proof.
  intros Hn H0 Step.
  assert (G : forall k : nat, Z.of_nat k <= n ->
                P (Z.of_nat k) (fold_left f (counter (Z.of_nat k)) init)).
  { induction k as [|k IH]; intros Hk; [exact H0|].
    replace (Z.of_nat (S k)) with (Z.of_nat k + 1) by lia.
    rewrite counter_succ, fold_left_app by lia. cbn [fold_left].
    apply Step; [lia|]. apply IH. lia. }
  rewrite <- (Z2Nat.id n) by lia. apply G. lia.
Qed.

Variables (pixel : Z -> Z -> A) (blank : A).

Lemma row_loop (width y : Z) (image : list A) :
  0 <= width -> 0 <= y ->
  (y + 1) * width <= Z.of_nat (List.length image) ->
  exists row,
    fold_left
      (fun image x =>
         match image with
         | Some im => store im (y * width + x) (pixel x y)
         | None => None
         end)
      (counter width) (Some image) = Some row
    /\ List.length row = List.length image
    /\ forall k, 0 <= k ->
         nth (Z.to_nat k) row blank
         = if (y * width <=? k) && (k <? y * width + width)
           then pixel (k - y * width) y
           else nth (Z.to_nat k) image blank.
Proof.
  intros Hw Hy Hlen.
  apply (counter_fold (option (list A))
           (fun image x =>
              match image with
              | Some im => store im (y * width + x) (pixel x y)
              | None => None
              end)
           (fun i st =>
              exists im, st = Some im
              /\ List.length im = List.length image
              /\ forall k, 0 <= k ->
                   nth (Z.to_nat k) im blank
                   = if (y * width <=? k) && (k <? y * width + i)
                     then pixel (k - y * width) y
                     else nth (Z.to_nat k) image blank)).
  - exact Hw.
  - exists image. split; [reflexivity|]. split; [reflexivity|]. intros k Hk.
    replace ((y * width <=? k) && (k <? y * width + 0)) with false;
      [reflexivity|].
    symmetry. apply andb_false_iff.
    destruct (Z.leb_spec (y * width) k); [right; apply Z.ltb_ge; lia
                                         | now left].
  - intros i st Hi (im & -> & L & N).
    assert (B : (0 <=? y * width + i)
                && (y * width + i <? Z.of_nat (List.length im)) = true).
    { apply andb_true_intro.
      split; [apply Z.leb_le | apply Z.ltb_lt]; nia. }
    unfold store. rewrite B.
    exists (assign im (Z.to_nat (y * width + i)) (pixel i y)).
    split; [reflexivity|]. split; [now rewrite assign_length|].
    intros k Hk.
    destruct (Z.eq_dec k (y * width + i)) as [-> | Ne].
    + rewrite nth_assign_same by nia.
      replace ((y * width <=? y * width + i)
               && (y * width + i <? y * width + (i + 1))) with true.
      * f_equal. lia.
      * symmetry. apply andb_true_intro.
        split; [apply Z.leb_le | apply Z.ltb_lt]; lia.
    + rewrite nth_assign_other by lia. rewrite (N k Hk).
      destruct (y * width <=? k) eqn:Lo; [|reflexivity]. cbn [andb].
      destruct (k <? y * width + i) eqn:Hi1.
      * replace (k <? y * width + (i + 1)) with true; [reflexivity|].
        symmetry. apply Z.ltb_lt. apply Z.ltb_lt in Hi1. lia.
      * replace (k <? y * width + (i + 1)) with false; [reflexivity|].
        symmetry. apply Z.ltb_ge. apply Z.ltb_ge in Hi1. lia.
Qed.

Lemma render_loop (width height : Z) :
  0 <= width -> 0 <= height ->
  exists image,
    renderLoop pixel blank width height = Some image
    /\ Z.of_nat (List.length image) = width * height
    /\ forall x y, 0 <= x < width -> 0 <= y < height ->
         nth (Z.to_nat (y * width + x)) image blank = pixel x y.
Proof.
  intros Hw Hh. unfold renderLoop.
  apply (counter_fold (option (list A))
           (fun image y =>
              fold_left
                (fun image x =>
                   match image with
                   | Some im => store im (y * width + x) (pixel x y)
                   | None => None
                   end)
                (counter width) image)
           (fun j st =>
              exists im, st = Some im
              /\ Z.of_nat (List.length im) = width * height
              /\ forall x y, 0 <= x < width -> 0 <= y < j ->
                   nth (Z.to_nat (y * width + x)) im blank = pixel x y)).
  - exact Hh.
  - eexists. split; [reflexivity|].
    split; [rewrite repeat_length; nia | intros; lia].
  - intros j st Hj (im & -> & L & N).
    destruct (row_loop width j im Hw (proj1 Hj)) as (row & -> & L' & N');
      [nia|].
    exists row. split; [reflexivity|]. split; [now rewrite L'|].
    intros x y Hx Hy. rewrite N' by nia.
    destruct (Z.eq_dec y j) as [-> | Ne].
    + replace ((j * width <=? j * width + x)
               && (j * width + x <? j * width + width)) with true.
      * f_equal. lia.
      * symmetry. apply andb_true_intro.
        split; [apply Z.leb_le | apply Z.ltb_lt]; lia.
    + replace ((j * width <=? y * width + x)
               && (y * width + x <? j * width + width)) with false.
      * apply N; lia.
      * symmetry. apply andb_false_iff. left. apply Z.leb_gt. nia.
Qed.

End Loops.

(** X22.  The render loop of [main] never stores outside the buffer and
    completes; the buffer has one entry per pixel, and the entry at
    [y * width + x] is the colour [trace] gives the primary ray of the
    pixel [(x, y)] at depth 0: every pixel is written, at its own
    row-major place. *)
Theorem main_image_pixels (tan : spec_float -> spec_float)
  (powf : spec_float -> Z -> spec_float)
  (readFloats : Vector3 spec_float -> string -> Vector3 spec_float)
  (stale : nat -> Vector3 spec_float) (file : option (list string)) :
  exists image,
    mainImage tan powf readFloats stale file = Some image
    /\ Z.of_nat (List.length image) = 800 * 600
    /\ forall x y, 0 <= x < 800 -> 0 <= y < 600 ->
         nth (Z.to_nat (y * 800 + x)) image
             (mkVector3 (B32.of_Z 0) (B32.of_Z 0) (B32.of_Z 0))
         = trace powf
                 (computePrimRay tan x y 800 600
                    (mkVector3 (B32.of_Z 0) (lit 3 2) (B32.of_Z 4)))
                 (mainTriangles readFloats stale file) 0.
Proof.
  unfold mainImage. cbv zeta.
  apply (render_loop
           (fun x y =>
              trace powf
                    (computePrimRay tan x y 800 600
                       (mkVector3 (B32.of_Z 0) (lit 3 2) (B32.of_Z 4)))
                    (mainTriangles readFloats stale file) 0)); lia.
Qed.

(** X23.  Whatever the OBJ file holds, and also when it cannot be opened,
    the scene of [main] has the triangles of the file followed by seven
    others, and every one of them is double-sided: for none of them does
    [intersectTriangle] take the early return of line 102, whatever the
    ray. *)
Theorem main_scene_double_sided
  (readFloats : Vector3 spec_float -> string -> Vector3 spec_float)
  (stale : nat -> Vector3 spec_float) (file : option (list string)) :
  List.length (mainTriangles readFloats stale file)
  = (List.length (loadOBJ readFloats stale
                          (mkVector3 (lit 8 10) (lit 5 10) (lit 2 10))
                          (ofZ 1) (v3 0 0 (-2)) true file) + 7)%nat
  /\ forall tri,
      In tri (mainTriangles readFloats stale file) ->
      doubleSided tri = true
      /\ forall ray, divisionDenominator tri ray
                     = Some (determinant tri ray).
Proof.
  split.
  - unfold mainTriangles. cbv zeta. rewrite !length_app. reflexivity.
  - intros tri Hin.
    assert (D : doubleSided tri = true).
    { unfold mainTriangles in Hin. cbv zeta in Hin.
      apply in_app_or in Hin. destruct Hin as [Hin | Hin].
      - destruct file as [lines|]; [|destruct Hin].
        assert (A := load_invariant readFloats stale
                       (mkVector3 (lit 8 10) (lit 5 10) (lit 2 10))
                       (ofZ 1) (v3 0 0 (-2)) true lines [] [] []
                       (Forall_nil _) (Forall_nil _)).
        rewrite Forall_forall in A.
        now destruct (A tri Hin) as (a & b & c & _ & _ & _ & ->).
      - apply in_app_or in Hin. destruct Hin as [Hin | Hin].
        + destruct Hin as [<- | [<- | [<- | [<- | []]]]]; reflexivity.
        + destruct Hin as [<- | [<- | [<- | []]]]; reflexivity. }
    split; [exact D|]. intros ray.
    unfold divisionDenominator, cullTest. now rewrite D.
Qed.

Lemma main_image_pixels_witness :
  exists image,
    mainImage tan30 B32.powi readInts sampleStale (Some sampleFile) = Some image
    /\ nth (Z.to_nat (300 * 800 + 400)) image
           (mkVector3 (B32.of_Z 0) (B32.of_Z 0) (B32.of_Z 0))
       = trace B32.powi
               (computePrimRay tan30 400 300 800 600
                  (mkVector3 (B32.of_Z 0) (lit 3 2) (B32.of_Z 4)))
               (mainTriangles readInts sampleStale (Some sampleFile)) 0.
Proof.
  destruct (main_image_pixels tan30 B32.powi readInts sampleStale
              (Some sampleFile))
    as (image & E & _ & N).
  exists image. split; [exact E|]. apply N; lia.
Defined.

Lemma main_scene_double_sided_witness :
  divisionDenominator (lightTriangle 2) rayInPlane
  = Some (determinant (lightTriangle 2) rayInPlane).
Proof.
  refine (proj2 (proj2 (main_scene_double_sided readInts sampleStale None)
                   (lightTriangle 2) _) rayInPlane).
  unfold mainTriangles. cbv zeta. apply in_or_app. right.
  apply in_or_app. right. cbn [counter Z.to_nat Pos.to_nat Pos.iter_op seq map].
  right. right. left. reflexivity.
Defined.
